(** * fontChanger: settings store, style renderer and page applier

    A shallow embedding of the extension's TypeScript sources:

    - [utils/storage.ts]: typed accessors over [chrome.storage.sync]
      (favorite fonts, per-site settings, style presets, domain extraction);
    - the content script: [generateCSS], [injectStyles], [removeStyles],
      [loadAndApplySettings] and the listeners for the [APPLY_STYLES]
      message and for storage changes;
    - [types/storage.ts]: the records and the default values.

    JavaScript strings are sequences of UTF-16 code units, numbers are
    IEEE 754 binary64 values, and the asynchronous accessors are state
    transformers over the browser state they read and write. The mutation
    observer and the initialisation of the content script, which only
    schedule [loadAndApplySettings], are left out. *)

From Stdlib Require Import ZArith NArith List Ascii String SpecFloat Lia.
From stdpp Require Import base option list gmap.

Local Open Scope N_scope.

(** ** JavaScript strings *)

(** A string value is its sequence of UTF-16 code units. *)
Abbreviation jsstring := (list N).

(** An ASCII string literal of the source, as code units. *)
Definition lit (s : string) : jsstring :=
  map N_of_ascii (list_ascii_of_string s).
Arguments lit _%_string.

(** The double quote character, U+0022. *)
Definition dq : jsstring := [34].

(** ECMAScript [WhiteSpace] and [LineTerminator] code points, the ones
    [String.prototype.trim] strips: TAB, LF, VT, FF, CR, SP, NBSP, U+1680,
    U+2000..U+200A, LS, PS, U+202F, U+205F, U+3000 and U+FEFF. *)
Definition is_white_space (c : N) : bool :=
  (9 <=? c) && (c <=? 13)
  || (c =? 32) || (c =? 160) || (c =? 5760)
  || (8192 <=? c) && (c <=? 8202)
  || (c =? 8232) || (c =? 8233) || (c =? 8239) || (c =? 8287)
  || (c =? 12288) || (c =? 65279).

Fixpoint trimStart (s : jsstring) : jsstring :=
  match s with
  | c :: s' => if is_white_space c then trimStart s' else s
  | [] => []
  end.

Definition trimEnd (s : jsstring) : jsstring := rev (trimStart (rev s)).

(** [String.prototype.trim]. *)
Definition trim (s : jsstring) : jsstring := trimEnd (trimStart s).

(** [s.substr(start)] for a non-negative [start]: the code units from index
    [start] on, empty when the string is shorter. *)
Definition substr (start : nat) (s : jsstring) : jsstring := drop start s.

(** [p] is the beginning of [s]. *)
Fixpoint is_prefix (p s : jsstring) : bool :=
  match p, s with
  | [], _ => true
  | a :: p', b :: s' => (a =? b) && is_prefix p' s'
  | _ :: _, [] => false
  end.

(** [p] occurs in [s] as a contiguous run of code units, as
    [String.prototype.includes] finds it. *)
Fixpoint occurs (p s : jsstring) : bool :=
  is_prefix p s ||
  match s with
  | [] => false
  | _ :: s' => occurs p s'
  end.

(** The number of positions of [s] at which [p] starts. *)
Fixpoint count_occurrences (p s : jsstring) : nat :=
  match s with
  | [] => if is_prefix p [] then 1%nat else 0%nat
  | _ :: s' => ((if is_prefix p s then 1 else 0) + count_occurrences p s')%nat
  end.

(** ** JavaScript numbers

    A Number is an IEEE 754 binary64 value: the Standard Library's
    [spec_float] at precision 53 and maximal exponent 1024. *)

Abbreviation number := spec_float.

Definition prec : Z := 53.
Definition emax : Z := 1024.

(** The Number closest to an integer literal. *)
Definition number_of_Z (z : Z) : number := binary_normalize prec emax z 0 false.

(** [x * y] and [x / y]. *)
Definition number_mul : number -> number -> number := SFmul prec emax.
Definition number_div : number -> number -> number := SFdiv prec emax.

(** [ToBoolean]: [+0], [-0] and [NaN] are falsy. *)
Definition ToBoolean (x : number) : bool :=
  match x with
  | S754_zero _ | S754_nan => false
  | _ => true
  end.

(** [x || y] on Numbers. *)
Definition number_or (x y : number) : number := if ToBoolean x then x else y.

(** A digit of a radix up to 36, as its character: [0-9] then [a-z]. *)
Definition digit_char (d : N) : N := if d <? 10 then 48 + d else 87 + d.

Fixpoint to_radix_fuel (fuel : nat) (radix n : N) (acc : jsstring) : jsstring :=
  match fuel with
  | O => acc
  | S fuel' =>
      let acc' := digit_char (n mod radix) :: acc in
      if n <? radix then acc' else to_radix_fuel fuel' radix (n / radix) acc'
  end.

(** The digits of a natural number in the given radix, most significant
    first, without leading zeros (["0"] for zero). The number of bits of [n]
    bounds the number of digits. *)
Definition to_radix (radix n : N) : jsstring :=
  to_radix_fuel (S (N.to_nat (N.size n))) radix n [].

Definition decimal (n : N) : jsstring := to_radix 10 n.

(** [Number.prototype.toString(radix)] on an integral Number of magnitude
    below 2^53 (every time value is one): the exact digits, with a minus
    sign when negative. *)
Definition integer_toString (radix : N) (z : Z) : jsstring :=
  match z with
  | Zneg p => lit "-" ++ to_radix radix (Npos p)
  | _ => to_radix radix (Z.to_N z)
  end.

Local Open Scope Z_scope.

(** The value of the finite Number [m * 2^e] as a fraction. *)
Definition frac_num (m : positive) (e : Z) : Z :=
  if 0 <=? e then Zpos m * 2 ^ e else Zpos m.
Definition frac_den (e : Z) : Z := if 0 <=? e then 1 else 2 ^ (- e).

(** [toFixed], step 11.a for zero fraction digits: the integer [n] for which
    [n - x] is as close to zero as possible, the larger one on a tie. *)
Definition round_half_up (m : positive) (e : Z) : Z :=
  (2 * frac_num m e + frac_den e) / (2 * frac_den e).

Definition at_least_1e21 (m : positive) (e : Z) : bool :=
  10 ^ 21 * frac_den e <=? frac_num m e.

(** *** [Number::toString]: the shortest decimal that reads back as the
    same Number *)

(** Comparison of the decimal [s * 10^t] with the fraction [a / b]. *)
Definition compare_decimal (s t a b : Z) : comparison :=
  if 0 <=? t then (s * 10 ^ t * b ?= a) else (s * b ?= a * 10 ^ (- t)).

(** The floor of [(a / b) / 10^t]. *)
Definition floor_scaled (a b t : Z) : Z :=
  if 0 <=? t then a / (b * 10 ^ t) else (a * 10 ^ (- t)) / b.

Fixpoint log10_up_fuel (fuel : nat) (a b j : Z) : Z :=
  match fuel with
  | O => j
  | S fuel' => if b <=? a * 10 ^ j then j else log10_up_fuel fuel' a b (j + 1)
  end.

(** The exponent [E] with [10^E <= a / b < 10^(E+1)], for [a / b > 0]. *)
Definition floor_log10 (a b : Z) : Z :=
  if b <=? a then Z.of_nat (length (decimal (Z.to_N (a / b)))) - 1
  else - log10_up_fuel (Z.to_nat (Z.log2 b + 1)) a b 1.

(** The reals that round to [m * 2^e] (round to nearest, ties to even):
    from half way down to the predecessor to half way up to the successor,
    end points included when [m] is even. All four numerators share the
    denominator [iv_den]. *)
Record interval := {
  iv_lo_num : Z;
  iv_hi_num : Z;
  iv_v_num : Z;
  iv_den : Z;
  iv_closed : bool
}.

Definition rounding_interval (m : positive) (e : Z) : interval :=
  let power_of_two := (Zpos m =? 2 ^ (prec - 1)) && (emin prec emax <? e) in
  let ulp_num := if 0 <=? e then 2 ^ e else 1 in
  {| iv_lo_num := 4 * frac_num m e - (if power_of_two then ulp_num else 2 * ulp_num);
     iv_hi_num := 4 * frac_num m e + 2 * ulp_num;
     iv_v_num := 4 * frac_num m e;
     iv_den := 4 * frac_den e;
     iv_closed := Z.even (Zpos m) |}.

Definition in_interval (iv : interval) (s t : Z) : bool :=
  match compare_decimal s t (iv_lo_num iv) (iv_den iv),
        compare_decimal s t (iv_hi_num iv) (iv_den iv) with
  | Gt, Lt => true
  | Eq, Lt | Gt, Eq => iv_closed iv
  | _, _ => false
  end.

(** With [k] digits: the two decimals around the value, the one that reads
    back as the value when only one does, the closer one when both do, the
    even one on a tie. *)
Definition candidate (iv : interval) (E k : Z) : option (Z * Z) :=
  let t := E - k + 1 in
  let lo := floor_scaled (iv_v_num iv) (iv_den iv) t in
  let hi := lo + 1 in
  match in_interval iv lo t, in_interval iv hi t with
  | false, false => None
  | true, false => Some (lo, t)
  | false, true => Some (hi, t)
  | true, true =>
      match compare_decimal (2 * lo + 1) t (2 * iv_v_num iv) (iv_den iv) with
      | Gt => Some (lo, t)
      | Lt => Some (hi, t)
      | Eq => Some (if Z.even lo then lo else hi, t)
      end
  end.

Fixpoint shortest_fuel (fuel : nat) (iv : interval) (E k : Z) : Z * Z :=
  match fuel with
  | O => (floor_scaled (iv_v_num iv) (iv_den iv) (E - k + 1), E - k + 1)
  | S fuel' =>
      match candidate iv E k with
      | Some st => st
      | None => shortest_fuel fuel' iv E (k + 1)
      end
  end.

Fixpoint strip_zeros (fuel : nat) (s t : Z) : Z * Z :=
  match fuel with
  | O => (s, t)
  | S fuel' => if (s mod 10 =? 0) && (0 <? s) then strip_zeros fuel' (s / 10) (t + 1) else (s, t)
  end.

(** The digits [s] and the exponent [t] with [s * 10^t] the shortest decimal
    that reads back as [m * 2^e], the closest one to it among those of that
    length. The search tries one to seventeen digits: seventeen identify any
    binary64 value (a property of the format, used here and not proved), and
    past them the value truncated to seventeen digits is taken. *)
Definition shortest (m : positive) (e : Z) : Z * Z :=
  let iv := rounding_interval m e in
  let '(s, t) := shortest_fuel 17 iv (floor_log10 (iv_v_num iv) (iv_den iv)) 1 in
  strip_zeros 17 s t.

(** [Number::toString(x, 10)], steps 5 to 9, from the digits [s] and the
    position [n] of the decimal point. *)
Definition format_decimal (digits : jsstring) (n : Z) : jsstring :=
  let k := Z.of_nat (length digits) in
  if (k <=? n) && (n <=? 21) then
    digits ++ replicate (Z.to_nat (n - k)) 48%N
  else if (0 <? n) && (n <=? 21) then
    take (Z.to_nat n) digits ++ lit "." ++ drop (Z.to_nat n) digits
  else if (-6 <? n) && (n <=? 0) then
    lit "0." ++ replicate (Z.to_nat (- n)) 48%N ++ digits
  else
    let exponent :=
      lit "e" ++ (if n - 1 <? 0 then lit "-" else lit "+") ++ decimal (Z.abs_N (n - 1)) in
    match digits with
    | [d] => [d] ++ exponent
    | d :: rest => [d] ++ lit "." ++ rest ++ exponent
    | [] => exponent
    end.

(** [Number::toString(x, 10)], what a template literal interpolates. *)
Definition Number_toString (x : number) : jsstring :=
  match x with
  | S754_nan => lit "NaN"
  | S754_zero _ => lit "0"
  | S754_infinity s => (if s then lit "-" else []) ++ lit "Infinity"
  | S754_finite s m e =>
      let '(digits, t) := shortest m e in
      let ds := decimal (Z.to_N digits) in
      (if s then lit "-" else []) ++ format_decimal ds (t + Z.of_nat (length ds))
  end.

(** [Number.prototype.toFixed(0)]. *)
Definition toFixed0 (x : number) : jsstring :=
  match x with
  | S754_nan | S754_infinity _ => Number_toString x
  | S754_zero _ => lit "0"
  | S754_finite s m e =>
      (if s then lit "-" else []) ++
      (if at_least_1e21 m e then Number_toString (S754_finite false m e)
       else decimal (Z.to_N (round_half_up m e)))
  end.

Local Close Scope Z_scope.

(** ** [types/storage.ts] *)

Record SiteStyles := {
  lineHeight : number;
  letterSpacing : jsstring;
  wordSpacing : jsstring;
  fontWeight : jsstring;
  fontSizeScale : number
}.

Record SiteSettings := {
  isActive : bool;
  fontFamily : jsstring;
  styles : SiteStyles
}.

Module StylePreset.
Record t := mk {
  id : jsstring;
  name : jsstring;
  fontFamily : jsstring;
  styles : SiteStyles
}.
End StylePreset.

(** A plain object used as a dictionary from domain to settings, as the map
    of its own enumerable properties: what [chrome.storage] persists. *)
Abbreviation site_map := (gmap jsstring SiteSettings).

Record UserStorage := {
  favoriteFonts : list jsstring;
  siteSettings : site_map;
  presets : list StylePreset.t
}.

(** [1.6], the Number closest to 16/10. *)
Definition DEFAULT_SITE_STYLES : SiteStyles :=
  {| lineHeight := number_div (number_of_Z 16) (number_of_Z 10);
     letterSpacing := lit "0px";
     wordSpacing := lit "0px";
     fontWeight := lit "inherit";
     fontSizeScale := number_of_Z 1 |}.

Definition DEFAULT_STORAGE : UserStorage :=
  {| favoriteFonts := []; siteSettings := ∅; presets := [] |}.

Record ApplyStylesMessage := {
  action : jsstring;
  domain : jsstring;
  settings : option SiteSettings
}.

Abbreviation ExtensionMessage := ApplyStylesMessage.

(** [Partial<UserStorage>]; also the content of the [chrome.storage.sync]
    area under the three keys the extension uses, each of which may be
    absent. *)
Record PartialUserStorage := {
  favoriteFonts_opt : option (list jsstring);
  siteSettings_opt : option site_map;
  presets_opt : option (list StylePreset.t)
}.

(** *** Property access on a plain object

    A read [o[key]] finds an own property first and falls back to
    [Object.prototype]; a write [o[key] = v] creates or overwrites an own
    property, except under the key [__proto__], which [Object.prototype]
    holds as an accessor: without an own property of that name the write
    replaces the prototype of the in-memory object and adds no own property,
    so nothing of it is persisted. *)

Definition Object_prototype_keys : list jsstring :=
  [ lit "constructor"; lit "__defineGetter__"; lit "__defineSetter__";
    lit "hasOwnProperty"; lit "__lookupGetter__"; lit "__lookupSetter__";
    lit "isPrototypeOf"; lit "propertyIsEnumerable"; lit "toString";
    lit "valueOf"; lit "__proto__"; lit "toLocaleString" ].

(** What a read of a [site_map] object yields when it is not [undefined]:
    own settings, or the member of [Object.prototype] of that name (a
    function or an object, truthy, without an [isActive] field). *)
Inductive property_value :=
  | own_settings (s : SiteSettings)
  | prototype_member (key : jsstring).

Definition get_property (o : site_map) (key : jsstring) : option property_value :=
  match o !! key with
  | Some s => Some (own_settings s)
  | None =>
      if bool_decide (key ∈ Object_prototype_keys)
      then Some (prototype_member key) else None
  end.

Definition set_property (o : site_map) (key : jsstring) (v : SiteSettings) : site_map :=
  if bool_decide (key = lit "__proto__") && bool_decide (o !! key = None)
  then o else <[key := v]> o.

Definition delete_property (o : site_map) (key : jsstring) : site_map := delete key o.

(** ** The browser state the extension runs against *)

Record element := {
  element_id : jsstring;
  tagName : jsstring;
  textContent : jsstring
}.

(** The page's elements in tree order, split at the [<head>] element: the
    elements inside it when the document has one, then the elements after it
    under the root element. The extension looks elements up by id, removes
    the one it finds and appends to the head or the root; the elements it
    removes are style elements, which have no children. *)
Record document := {
  head : option (list element);
  documentElement : list element
}.

(** The storage area, the clock [Date.now()] reads, the successive values of
    [Math.random().toString(36)] (radix conversion of a fraction is left to
    the engine), and the page of the content script. *)
Record browser := {
  sync : PartialUserStorage;
  clock : Z;
  random36 : nat -> jsstring;
  draws : nat;
  hostname : jsstring;
  page : document
}.

Definition with_sync (a : PartialUserStorage) (w : browser) : browser :=
  {| sync := a; clock := clock w; random36 := random36 w; draws := draws w;
     hostname := hostname w; page := page w |}.

Definition with_page (d : document) (w : browser) : browser :=
  {| sync := sync w; clock := clock w; random36 := random36 w; draws := draws w;
     hostname := hostname w; page := d |}.

(** An asynchronous function, awaited: a transformer of the browser state.
    Calls are taken one after the other; the storage area answers every
    read and keeps every write. *)
Definition Async (A : Type) : Type := browser -> A * browser.

Definition ret {A} (a : A) : Async A := fun w => (a, w).

Definition bind {A B} (m : Async A) (k : A -> Async B) : Async B :=
  fun w => let '(a, w') := m w in k a w'.

Declare Scope async_scope.
Delimit Scope async_scope with async.
Notation "x <- m ;; k" := (bind m (fun x => k))
  (at level 100, m at next level, right associativity) : async_scope.
Notation "m ;; k" := (bind m (fun _ => k))
  (at level 100, right associativity) : async_scope.
Local Open Scope async_scope.

(** [chrome.storage.sync.get(defaults)]: the stored value of each key of
    [defaults], the default where the key is absent. *)
Definition chrome_storage_sync_get (defaults : UserStorage) : Async UserStorage :=
  fun w =>
    ({| favoriteFonts := default (favoriteFonts defaults) (favoriteFonts_opt (sync w));
        siteSettings := default (siteSettings defaults) (siteSettings_opt (sync w));
        presets := default (presets defaults) (presets_opt (sync w)) |}, w).

(** [chrome.storage.sync.set(data)]: overwrites the keys [data] has. *)
Definition chrome_storage_sync_set (data : PartialUserStorage) : Async unit :=
  fun w =>
    (tt, with_sync
           {| favoriteFonts_opt := from_option Some (favoriteFonts_opt (sync w)) (favoriteFonts_opt data);
              siteSettings_opt := from_option Some (siteSettings_opt (sync w)) (siteSettings_opt data);
              presets_opt := from_option Some (presets_opt (sync w)) (presets_opt data) |} w).

Definition Date_now : Async Z := fun w => (clock w, w).

Definition Math_random_toString36 : Async jsstring :=
  fun w =>
    (random36 w (draws w),
     {| sync := sync w; clock := clock w; random36 := random36 w; draws := S (draws w);
        hostname := hostname w; page := page w |}).

(** ** [utils/storage.ts] *)

Definition only_favoriteFonts (fonts : list jsstring) : PartialUserStorage :=
  {| favoriteFonts_opt := Some fonts; siteSettings_opt := None; presets_opt := None |}.

Definition only_siteSettings (sites : site_map) : PartialUserStorage :=
  {| favoriteFonts_opt := None; siteSettings_opt := Some sites; presets_opt := None |}.

Definition only_presets (ps : list StylePreset.t) : PartialUserStorage :=
  {| favoriteFonts_opt := None; siteSettings_opt := None; presets_opt := Some ps |}.

(** [{ ...DEFAULT_STORAGE, ...result, presets: result.presets || [] }]: the
    result of [get] carries all three keys, so its spread overrides every
    default, and an array is truthy. *)
Definition getStorage : Async UserStorage :=
  result <- chrome_storage_sync_get DEFAULT_STORAGE ;;
  ret {| favoriteFonts := favoriteFonts result;
         siteSettings := siteSettings result;
         presets := presets result |}.

Definition setStorage (data : PartialUserStorage) : Async unit :=
  chrome_storage_sync_set data.

(** [Array.prototype.includes] on strings: equality of code units. *)
Definition includes (l : list jsstring) (x : jsstring) : bool := bool_decide (x ∈ l).

Definition addFavoriteFont (fontName : jsstring) : Async bool :=
  storage <- getStorage ;;
  let trimmedName := trim fontName in
  if bool_decide (trimmedName = []) || includes (favoriteFonts storage) trimmedName
  then ret false
  else
    let fonts := favoriteFonts storage ++ [trimmedName] in
    setStorage (only_favoriteFonts fonts) ;;
    ret true.

Definition removeFavoriteFont (fontName : jsstring) : Async unit :=
  storage <- getStorage ;;
  let fonts := filter (λ f, f ≠ fontName) (favoriteFonts storage) in
  setStorage (only_favoriteFonts fonts).

(** [storage.siteSettings[domain] || null]: every value a read can yield is
    an object or a function, hence truthy. *)
Definition getSiteSettings (domain : jsstring) : Async (option property_value) :=
  storage <- getStorage ;;
  ret (get_property (siteSettings storage) domain).

Definition setSiteSettings (domain : jsstring) (settings : SiteSettings) : Async unit :=
  storage <- getStorage ;;
  let sites := set_property (siteSettings storage) domain settings in
  setStorage (only_siteSettings sites).

Definition removeSite (domain : jsstring) : Async unit :=
  storage <- getStorage ;;
  let sites := delete_property (siteSettings storage) domain in
  setStorage (only_siteSettings sites).

(** [{ ...styles }]: a new object with the five fields of [styles]. *)
Definition spread_styles (s : SiteStyles) : SiteStyles :=
  {| lineHeight := lineHeight s;
     letterSpacing := letterSpacing s;
     wordSpacing := wordSpacing s;
     fontWeight := fontWeight s;
     fontSizeScale := fontSizeScale s |}.

Definition createDefaultSiteSettings (fontFamily : jsstring) : SiteSettings :=
  {| isActive := true;
     fontFamily := fontFamily;
     styles := spread_styles DEFAULT_SITE_STYLES |}.

(** The two fields of a parsed URL the extension reads. *)
Module URL.
Record t := mk {
  protocol : jsstring;
  hostname : jsstring
}.
End URL.

(** The browser's URL parser: [new URL(url)], [None] when it throws. *)
Class URLParser := new_URL : jsstring -> option URL.t.

Definition extractDomain `{URLParser} (url : jsstring) : option jsstring :=
  match new_URL url with
  | Some urlObj =>
      if bool_decide (URL.protocol urlObj = lit "chrome:")
         || bool_decide (URL.protocol urlObj = lit "edge:")
         || bool_decide (URL.protocol urlObj = lit "about:")
         || bool_decide (URL.protocol urlObj = lit "chrome-extension:")
      then None
      else Some (URL.hostname urlObj)
  | None => None
  end.

(** [Date.now().toString(36) + Math.random().toString(36).substr(2)]. *)
Definition generateId : Async jsstring :=
  now <- Date_now ;;
  random <- Math_random_toString36 ;;
  ret (integer_toString 36 now ++ substr 2 random).

Definition addPreset (name fontFamily : jsstring) (styles : SiteStyles)
  : Async StylePreset.t :=
  storage <- getStorage ;;
  id <- generateId ;;
  let newPreset :=
    {| StylePreset.id := id;
       StylePreset.name := trim name;
       StylePreset.fontFamily := fontFamily;
       StylePreset.styles := spread_styles styles |} in
  setStorage (only_presets (presets storage ++ [newPreset])) ;;
  ret newPreset.

Definition removePreset (presetId : jsstring) : Async unit :=
  storage <- getStorage ;;
  let ps := filter (λ p, StylePreset.id p ≠ presetId) (presets storage) in
  setStorage (only_presets ps).

(** [findIndex] yields the first preset with the id together with its index;
    [None] stands for [-1]. *)
Definition updatePreset (presetId name fontFamily : jsstring) (styles : SiteStyles)
  : Async unit :=
  storage <- getStorage ;;
  match list_find (λ p, StylePreset.id p = presetId) (presets storage) with
  | Some (index, old) =>
      let updated :=
        {| StylePreset.id := StylePreset.id old;
           StylePreset.name := trim name;
           StylePreset.fontFamily := fontFamily;
           StylePreset.styles := spread_styles styles |} in
      setStorage (only_presets (<[index := updated]> (presets storage)))
  | None => ret tt
  end.

(** ** The content script *)

Definition STYLE_ID : jsstring := lit "readable-font-fix".

Definition getCurrentDomain : Async jsstring := fun w => (hostname w, w).

(** The attribute selector [[class*="v"]]. *)
Definition class_contains (v : string) : jsstring :=
  lit "[class*=" ++ dq ++ lit v ++ dq ++ lit "]".

Definition iconExclusions : list jsstring :=
  [ lit "i";
    class_contains "icon";
    class_contains "Icon";
    class_contains "fa-";
    class_contains "fa ";
    class_contains "fas ";
    class_contains "far ";
    class_contains "fab ";
    class_contains "material-icons";
    class_contains "glyphicon";
    class_contains "emoji";
    lit "svg";
    lit "svg *";
    lit "code";
    lit "pre";
    lit "kbd";
    lit ".mono";
    class_contains "monospace" ].

(** [iconExclusions.map(s => `:not(${s})`).join('')]. *)
Definition notSelectors : jsstring :=
  concat (map (λ s, lit ":not(" ++ s ++ lit ")") iconExclusions).

Definition fontSizePercent (styles : SiteStyles) : jsstring :=
  toFixed0 (number_mul (number_or (fontSizeScale styles) (number_of_Z 1)) (number_of_Z 100)).

Definition fontWeightCSS (styles : SiteStyles) : jsstring :=
  if bool_decide (fontWeight styles = lit "inherit")
  then []
  else lit "font-weight: " ++ fontWeight styles ++ lit " !important;".

(** The rule of the root element and the rule of all elements outside the
    exclusions, as the two halves of the template literal. *)
Definition html_rule (styles : SiteStyles) : jsstring :=
  lit "
    html {
      font-size: " ++ fontSizePercent styles ++ lit "% !important;
    }
".

Definition element_rule_selector : jsstring := lit "*" ++ notSelectors.

Definition element_rule (settings : SiteSettings) : jsstring :=
  lit "    " ++ element_rule_selector ++ lit " {
      font-family: " ++ dq ++ fontFamily settings ++ dq ++ lit ", sans-serif !important;
      line-height: " ++ Number_toString (lineHeight (styles settings)) ++ lit " !important;
      letter-spacing: " ++ letterSpacing (styles settings) ++ lit " !important;
      word-spacing: " ++ wordSpacing (styles settings) ++ lit " !important;
      " ++ fontWeightCSS (styles settings) ++ lit "
    }
  ".

Definition generateCSS (settings : SiteSettings) : jsstring :=
  html_rule (styles settings) ++ element_rule settings.

Definition getElementById (i : jsstring) (d : document) : option element :=
  snd <$> list_find (λ el, element_id el = i) (default [] (head d) ++ documentElement d).

(** The list without its first element of the given id. *)
Fixpoint remove_first (i : jsstring) (l : list element) : list element :=
  match l with
  | [] => []
  | el :: l' => if bool_decide (element_id el = i) then l' else el :: remove_first i l'
  end.

(** [existingStyle.remove()] for the element [getElementById] found. *)
Definition remove_by_id (i : jsstring) (d : document) : document :=
  match head d with
  | Some h =>
      if bool_decide (Exists (λ el, element_id el = i) h)
      then {| head := Some (remove_first i h); documentElement := documentElement d |}
      else {| head := Some h; documentElement := remove_first i (documentElement d) |}
  | None => {| head := None; documentElement := remove_first i (documentElement d) |}
  end.

(** [(document.head || document.documentElement).appendChild(el)]. *)
Definition appendChild_to_target (el : element) (d : document) : document :=
  match head d with
  | Some h => {| head := Some (h ++ [el]); documentElement := documentElement d |}
  | None => {| head := None; documentElement := documentElement d ++ [el] |}
  end.

Definition removeStyles : Async unit :=
  fun w =>
    match getElementById STYLE_ID (page w) with
    | Some _ => (tt, with_page (remove_by_id STYLE_ID (page w)) w)
    | None => (tt, w)
    end.

Definition styleElement (settings : SiteSettings) : element :=
  {| element_id := STYLE_ID; tagName := lit "style"; textContent := generateCSS settings |}.

Definition injectStyles (settings : SiteSettings) : Async unit :=
  removeStyles ;;
  fun w => (tt, with_page (appendChild_to_target (styleElement settings) (page w)) w).

(** [siteSettings && siteSettings.isActive], as a condition. *)
Definition is_active_settings (v : option property_value) : option SiteSettings :=
  match v with
  | Some (own_settings s) => if isActive s then Some s else None
  | Some (prototype_member _) => None
  | None => None
  end.

(** The read asks for [favoriteFonts] and [siteSettings] with empty defaults
    and uses the site settings only. It is taken to succeed: the [catch]
    branch, for a storage area that cannot be reached, only logs. *)
Definition loadAndApplySettings : Async unit :=
  domain <- getCurrentDomain ;;
  result <- chrome_storage_sync_get DEFAULT_STORAGE ;;
  let siteSettings := get_property (siteSettings result) domain in
  match is_active_settings siteSettings with
  | Some s => injectStyles s
  | None => removeStyles
  end.

(** The listener of [chrome.runtime.onMessage]: the response it sends, if
    any, and its return value. *)
Definition onMessage (message : ExtensionMessage) : Async (option bool * bool) :=
  if bool_decide (action message = lit "APPLY_STYLES") then
    match settings message with
    | Some s => injectStyles s
    | None => removeStyles
    end ;;
    ret (Some true, true)
  else ret (None, true).

(** The listener of [chrome.storage.onChanged]. *)
Definition onStorageChanged (namespace : jsstring) (siteSettings_changed : bool)
  : Async unit :=
  if bool_decide (namespace = lit "sync") && siteSettings_changed
  then loadAndApplySettings else ret tt.

(** * Definitions the statements use *)

(** ** The stored document *)

(** The document a read assembles from the storage area. *)
Definition stored (w : browser) : UserStorage := (getStorage w).1.

Ltac run_async :=
  unfold addFavoriteFont, removeFavoriteFont, getSiteSettings, setSiteSettings,
    removeSite, addPreset, removePreset, updatePreset, generateId, setStorage,
    getStorage, chrome_storage_sync_set, chrome_storage_sync_get, Date_now,
    Math_random_toString36, stored, bind, ret in *; simpl in *.

(** The number of entries of a font list equal to a given name. *)
Definition occurrences (x : jsstring) (l : list jsstring) : nat :=
  length (filter (λ f, f = x) l).

(** A browser with an empty storage area, used in the examples. *)
Definition fresh_browser : browser :=
  {| sync := {| favoriteFonts_opt := None; siteSettings_opt := None; presets_opt := None |};
     clock := 1700000000000;
     random36 := λ _, lit "0.4fzyo82mvyr";
     draws := 0;
     hostname := lit "example.com";
     page := {| head := Some []; documentElement := [] |} |}.

(** The settings a newly registered site gets. *)
Definition example_settings : SiteSettings := createDefaultSiteSettings (lit "Pretendard").

(** ** Digit strings *)

(** The digit a character of [0-9a-z] stands for. *)
Definition digit_value (c : N) : N := if c <? 58 then c - 48 else c - 87.

(** The number a digit string denotes. *)
Definition from_radix (radix : N) (ds : jsstring) : N :=
  fold_left (λ a c, a * radix + digit_value c) ds 0.

(** ** Stored presets *)

(** A browser whose stored document holds one preset, whose clock reads
    1700000000000 and whose next random draw renders as 0.4fzyo82mvyr. *)
Definition browser_with_preset : browser :=
  {| sync := {| favoriteFonts_opt := Some [lit "Pretendard"];
                siteSettings_opt := None;
                presets_opt :=
                  Some [ {| StylePreset.id := lit "loyw3v284fzyo82mvyr";
                            StylePreset.name := lit "Reading";
                            StylePreset.fontFamily := lit "Pretendard";
                            StylePreset.styles := DEFAULT_SITE_STYLES |} ] |};
     clock := 1700000000000;
     random36 := λ _, lit "0.4fzyo82mvyr";
     draws := 0;
     hostname := lit "example.com";
     page := {| head := Some []; documentElement := [] |} |}.

(** The same document one millisecond later. *)
Definition browser_one_ms_later : browser :=
  {| sync := sync browser_with_preset;
     clock := 1700000000001;
     random36 := λ _, lit "0.4fzyo82mvyr";
     draws := 0;
     hostname := lit "example.com";
     page := {| head := Some []; documentElement := [] |} |}.

Definition two_presets : list StylePreset.t :=
  [ {| StylePreset.id := lit "loyw3v284fzyo82mvyr";
       StylePreset.name := lit "Reading";
       StylePreset.fontFamily := lit "Pretendard";
       StylePreset.styles := DEFAULT_SITE_STYLES |};
    {| StylePreset.id := lit "loyw3v29k2j1";
       StylePreset.name := lit "Coding";
       StylePreset.fontFamily := lit "Noto Sans";
       StylePreset.styles := DEFAULT_SITE_STYLES |} ].

(** ** Boundaries of occurrences *)

(** The character [c] is none of the characters of [p]. *)
Definition not_in (c : N) (p : jsstring) : bool := forallb (λ x, negb (x =? c)) p.

(** [a] ends with, or [b] starts with, a character that the non-empty text
    [p] does not contain: no occurrence of [p] crosses that end. *)
Definition ends_outside (p a : jsstring) : bool :=
  match p, last a with
  | _ :: _, Some c => not_in c p
  | _, _ => false
  end.

Definition starts_outside (p b : jsstring) : bool :=
  match p, b with
  | _ :: _, c :: _ => not_in c p
  | _, _ => false
  end.

(** ** The text of a Number and of the template *)

(** The characters a rendered Number is made of: digits, sign, point,
    exponent mark, and the letters of [NaN] and [Infinity]. *)
Definition number_char (c : N) : bool :=
  (48 <=? c) && (c <=? 57) || existsb (N.eqb c) (lit "+-.eNaInfity").

Abbreviation number_text s := (Forall (λ c, number_char c = true) s).

(** The fixed text of the template literal, between its interpolations. *)
Definition template_0 : jsstring := lit "
    html {
      font-size: ".

Definition template_1 : jsstring :=
  lit "% !important;
    }
" ++ lit "    " ++ element_rule_selector ++ lit " {
      font-family: " ++ dq.

Definition template_2 : jsstring :=
  dq ++ lit ", sans-serif !important;
      line-height: ".

Definition template_3 : jsstring := lit " !important;
      letter-spacing: ".

Definition template_4 : jsstring := lit " !important;
      word-spacing: ".

Definition template_5 : jsstring := lit " !important;
      ".

Definition template_6 : jsstring := lit "
    }
  ".

(** ** Counting in the rendered style sheet *)

(** The text [p] crosses no boundary between the fixed text of the template
    and an interpolation. *)
Definition fits_template (p : jsstring) : bool :=
  ends_outside p template_0
  && starts_outside p template_1 && ends_outside p template_1
  && starts_outside p template_2 && ends_outside p template_2
  && starts_outside p template_3 && ends_outside p template_3
  && starts_outside p template_4 && ends_outside p template_4
  && starts_outside p template_5 && ends_outside p template_5
  && starts_outside p template_6.

(** The occurrences of [p] in the fixed text of the template. *)
Definition template_count (p : jsstring) : nat :=
  (count_occurrences p template_0 + count_occurrences p template_1
   + count_occurrences p template_2 + count_occurrences p template_3
   + count_occurrences p template_4 + count_occurrences p template_5
   + count_occurrences p template_6)%nat.


(** The Number closest to [a / b], as [parseFloat] reads a short decimal. *)
Definition ratio (a b : Z) : number := number_div (number_of_Z a) (number_of_Z b).

Definition styles_with_scale (x : number) : SiteStyles :=
  {| lineHeight := lineHeight DEFAULT_SITE_STYLES;
     letterSpacing := lit "0px";
     wordSpacing := lit "0px";
     fontWeight := lit "inherit";
     fontSizeScale := x |}.

(** ** Exclusion sets and deep equality *)

Definition not_clause (e : jsstring) : jsstring := lit ":not(" ++ e ++ lit ")".

(** The exclusion set in the words of the specification: class-name
    substrings icon, Icon, fa-, material-icons, glyphicon, emoji; svg
    elements and their descendants; code, pre, kbd; class-name substrings
    mono and monospace. *)
Definition specified_exclusions : list jsstring :=
  [ class_contains "icon"; class_contains "Icon"; class_contains "fa-";
    class_contains "material-icons"; class_contains "glyphicon";
    class_contains "emoji";
    lit "svg"; lit "svg *";
    lit "code"; lit "pre"; lit "kbd";
    class_contains "mono"; class_contains "monospace" ].

(** The same set with the class [mono] itself in place of the class-name
    substring mono. *)
Definition rendered_exclusions : list jsstring :=
  [ class_contains "icon"; class_contains "Icon"; class_contains "fa-";
    class_contains "material-icons"; class_contains "glyphicon";
    class_contains "emoji";
    lit "svg"; lit "svg *";
    lit "code"; lit "pre"; lit "kbd";
    lit ".mono"; class_contains "monospace" ].

(** The declarations of the rule of all elements. *)
Definition element_rule_body (s : SiteSettings) : jsstring :=
  lit "
      font-family: " ++ dq ++ fontFamily s ++ dq ++ lit ", sans-serif !important;
      line-height: " ++ Number_toString (lineHeight (styles s)) ++ lit " !important;
      letter-spacing: " ++ letterSpacing (styles s) ++ lit " !important;
      word-spacing: " ++ wordSpacing (styles s) ++ lit " !important;
      " ++ fontWeightCSS (styles s) ++ lit "
    ".

(** The four properties the rule of all elements sets. *)
Definition overridden_properties : list jsstring :=
  [ lit "font-family"; lit "line-height"; lit "letter-spacing"; lit "word-spacing" ].

(** Equality of Numbers as deep comparison sees it: [NaN] equals [NaN] and
    the two zeros are equal. *)
Definition same_number (x y : number) : bool :=
  match x, y with
  | S754_nan, S754_nan => true
  | S754_zero _, S754_zero _ => true
  | S754_infinity a, S754_infinity b => Bool.eqb a b
  | S754_finite a m e, S754_finite b m' e' => Bool.eqb a b && Pos.eqb m m' && Z.eqb e e'
  | _, _ => false
  end.

Definition deep_equal_styles (a b : SiteStyles) : bool :=
  same_number (lineHeight a) (lineHeight b)
  && bool_decide (letterSpacing a = letterSpacing b)
  && bool_decide (wordSpacing a = wordSpacing b)
  && bool_decide (fontWeight a = fontWeight b)
  && same_number (fontSizeScale a) (fontSizeScale b).

Definition deep_equal (a b : SiteSettings) : bool :=
  Bool.eqb (isActive a) (isActive b)
  && bool_decide (fontFamily a = fontFamily b)
  && deep_equal_styles (styles a) (styles b).

Definition settings_with_zeros (sign : bool) : SiteSettings :=
  {| isActive := true;
     fontFamily := lit "Pretendard";
     styles := {| lineHeight := S754_zero sign;
                  letterSpacing := lit "0px";
                  wordSpacing := lit "0px";
                  fontWeight := lit "400";
                  fontSizeScale := S754_zero (negb sign) |} |}.

(** ** Domain extraction and the page applier *)

Definition rejected_protocols : list jsstring :=
  [ lit "chrome:"; lit "edge:"; lit "about:"; lit "chrome-extension:" ].

(** A parser that knows four addresses, for the examples. *)
Definition sample_parser : URLParser :=
  λ url,
    if bool_decide (url = lit "https://example.com/fonts?x=1") then
      Some {| URL.protocol := lit "https:"; URL.hostname := lit "example.com" |}
    else if bool_decide (url = lit "chrome://extensions/") then
      Some {| URL.protocol := lit "chrome:"; URL.hostname := lit "extensions" |}
    else if bool_decide (url = lit "about:blank") then
      Some {| URL.protocol := lit "about:"; URL.hostname := [] |}
    else if bool_decide (url = lit "chrome-extension://abcdefgh/popup.html") then
      Some {| URL.protocol := lit "chrome-extension:"; URL.hostname := lit "abcdefgh" |}
    else None.

(** The settings the load path finds for the page's host. *)
Definition stored_site (w : browser) : option property_value :=
  get_property (siteSettings (stored w)) (hostname w).

Definition inactive_settings : SiteSettings :=
  {| isActive := false; fontFamily := lit "Pretendard"; styles := DEFAULT_SITE_STYLES |}.


Definition bold_settings : SiteSettings :=
  {| isActive := true;
     fontFamily := lit "Pretendard";
     styles := {| lineHeight := ratio 16 10;
                  letterSpacing := lit "0.5px";
                  wordSpacing := lit "1px";
                  fontWeight := lit "700";
                  fontSizeScale := ratio 12 10 |} |}.

(** ** Selector matching *)

(** An element as the exclusion selectors see it: its local name, its class
    attribute, and the local names of its ancestors. *)
Record subject := {
  local_name : jsstring;
  class_attribute : option jsstring;
  ancestors : list jsstring
}.

(** The four shapes of selector in the exclusion list: [name],
    [[class*="v"]], [.c] and [name *]. *)
Inductive exclusion :=
  | by_type (name : string)
  | by_class_substring (v : string)
  | by_class (c : string)
  | by_ancestor (name : string).

Definition exclusion_text (x : exclusion) : jsstring :=
  match x with
  | by_type name => lit name
  | by_class_substring v => class_contains v
  | by_class c => lit "." ++ lit c
  | by_ancestor name => lit name ++ lit " *"
  end.

Definition parsed_exclusions : list exclusion :=
  [ by_type "i";
    by_class_substring "icon"; by_class_substring "Icon"; by_class_substring "fa-";
    by_class_substring "fa "; by_class_substring "fas "; by_class_substring "far ";
    by_class_substring "fab "; by_class_substring "material-icons";
    by_class_substring "glyphicon"; by_class_substring "emoji";
    by_type "svg"; by_ancestor "svg";
    by_type "code"; by_type "pre"; by_type "kbd";
    by_class "mono"; by_class_substring "monospace" ].

(** The class names of a class attribute: its runs of characters other than
    ASCII white space. *)
Definition is_ascii_white_space (c : N) : bool :=
  (c =? 9) || (c =? 10) || (c =? 12) || (c =? 13) || (c =? 32).

Fixpoint class_names_from (current : jsstring) (s : jsstring) : list jsstring :=
  match s with
  | [] => match current with [] => [] | _ => [rev current] end
  | c :: s' =>
      if is_ascii_white_space c then
        match current with
        | [] => class_names_from [] s'
        | _ => rev current :: class_names_from [] s'
        end
      else class_names_from (c :: current) s'
  end.

Definition class_names (attribute : jsstring) : list jsstring :=
  class_names_from [] attribute.

Definition excludes (x : exclusion) (el : subject) : bool :=
  match x with
  | by_type name => bool_decide (local_name el = lit name)
  | by_class_substring v =>
      match class_attribute el with
      | Some a => occurs (lit v) a
      | None => false
      end
  | by_class c =>
      match class_attribute el with
      | Some a => bool_decide (lit c ∈ class_names a)
      | None => false
      end
  | by_ancestor name => bool_decide (lit name ∈ ancestors el)
  end.

(** [*:not(a):not(b)...] selects the elements that none of [a], [b], ...
    selects. *)
Definition rule_selects (el : subject) : bool :=
  forallb (λ x, negb (excludes x el)) parsed_exclusions.

Ltac in_list :=
  repeat first [apply list_elem_of_here | apply list_elem_of_further].

(** * The callers: popup and options page *)

(** ** [popup/App.tsx] *)




(** [applyStyles]: the message sent to the active tab, if any. Nothing is
    sent without a domain or for a tab without id (an id of 0 is falsy);
    inactive settings travel as [null]. *)
Definition applyStyles (domain : option jsstring) (tab_id : option N)
    (newSettings : SiteSettings) : option (N * ApplyStylesMessage) :=
  match domain, tab_id with
  | Some (c :: d), Some (Npos i) =>
      Some (Npos i,
            {| action := lit "APPLY_STYLES";
               domain := c :: d;
               settings := if isActive newSettings then Some newSettings else None |})
  | _, _ => None
  end.

(** A handler of the popup: the new value of its [settings] state and the
    message it sends. The handlers read [domain], [settings] and [storage]
    from the state of the render they belong to; [settings] is taken as the
    state declares it, settings or [null], and [tab_id] is the id of the
    active tab when [applyStyles] asks for it. *)
Definition popup_handler : Type := Async (option SiteSettings * option (N * ApplyStylesMessage)).

(** The common part of the handlers: store, set the state, notify. *)
Definition store_and_apply (domain : jsstring) (tab_id : option N)
    (newSettings : SiteSettings) : popup_handler :=
  setSiteSettings domain newSettings ;;
  ret (Some newSettings, applyStyles (Some domain) tab_id newSettings).

Definition handleRegisterSite (domain : option jsstring) (storage : UserStorage)
    (settings : option SiteSettings) (tab_id : option N) : popup_handler :=
  match domain, favoriteFonts storage with
  | Some (c :: d), first :: _ =>
      store_and_apply (c :: d) tab_id (createDefaultSiteSettings first)
  | _, _ => ret (settings, None)
  end.

Definition handleToggleActive (domain : option jsstring)
    (settings : option SiteSettings) (tab_id : option N) : popup_handler :=
  match domain, settings with
  | Some (c :: d), Some s =>
      store_and_apply (c :: d) tab_id
        {| isActive := negb (isActive s); fontFamily := fontFamily s; styles := styles s |}
  | _, _ => ret (settings, None)
  end.

Definition handleFontChange (domain : option jsstring)
    (settings : option SiteSettings) (tab_id : option N) (fontFamily : jsstring)
  : popup_handler :=
  match domain, settings with
  | Some (c :: d), Some s =>
      store_and_apply (c :: d) tab_id
        {| isActive := isActive s; fontFamily := fontFamily; styles := styles s |}
  | _, _ => ret (settings, None)
  end.

(** The key and value of a [handleStyleChange] call, as the sliders pass
    them. *)
Inductive style_change :=
  | change_lineHeight (value : number)
  | change_letterSpacing (value : jsstring)
  | change_wordSpacing (value : jsstring)
  | change_fontWeight (value : jsstring)
  | change_fontSizeScale (value : number).

(** [{ ...styles, [key]: value }]. *)
Definition with_style (st : SiteStyles) (c : style_change) : SiteStyles :=
  match c with
  | change_lineHeight v =>
      {| lineHeight := v; letterSpacing := letterSpacing st;
         wordSpacing := wordSpacing st; fontWeight := fontWeight st;
         fontSizeScale := fontSizeScale st |}
  | change_letterSpacing v =>
      {| lineHeight := lineHeight st; letterSpacing := v;
         wordSpacing := wordSpacing st; fontWeight := fontWeight st;
         fontSizeScale := fontSizeScale st |}
  | change_wordSpacing v =>
      {| lineHeight := lineHeight st; letterSpacing := letterSpacing st;
         wordSpacing := v; fontWeight := fontWeight st;
         fontSizeScale := fontSizeScale st |}
  | change_fontWeight v =>
      {| lineHeight := lineHeight st; letterSpacing := letterSpacing st;
         wordSpacing := wordSpacing st; fontWeight := v;
         fontSizeScale := fontSizeScale st |}
  | change_fontSizeScale v =>
      {| lineHeight := lineHeight st; letterSpacing := letterSpacing st;
         wordSpacing := wordSpacing st; fontWeight := fontWeight st;
         fontSizeScale := v |}
  end.

Definition handleStyleChange (domain : option jsstring)
    (settings : option SiteSettings) (tab_id : option N) (change : style_change)
  : popup_handler :=
  match domain, settings with
  | Some (c :: d), Some s =>
      store_and_apply (c :: d) tab_id
        {| isActive := isActive s; fontFamily := fontFamily s;
           styles := with_style (styles s) change |}
  | _, _ => ret (settings, None)
  end.

Definition handleApplyPreset (domain : option jsstring)
    (settings : option SiteSettings) (tab_id : option N) (preset : StylePreset.t)
  : popup_handler :=
  match domain, settings with
  | Some (c :: d), Some s =>
      store_and_apply (c :: d) tab_id
        {| isActive := isActive s;
           fontFamily := StylePreset.fontFamily preset;
           styles := spread_styles (StylePreset.styles preset) |}
  | _, _ => ret (settings, None)
  end.

(** The content script of the tab, taken to be running, receives the
    message the popup sent, if any. *)
Definition deliver (sent : option (N * ApplyStylesMessage)) : Async unit :=
  match sent with
  | Some (_, message) => onMessage message ;; ret tt
  | None => ret tt
  end.

(** What the user does in the popup. *)
Inductive popup_action :=
  | register_site
  | toggle_active
  | change_font (fontFamily : jsstring)
  | change_style (change : style_change)
  | apply_preset (preset : StylePreset.t).

(** The handler the action runs. *)
Definition run_handler (domain : option jsstring) (storage : UserStorage)
    (settings : option SiteSettings) (tab_id : option N) (a : popup_action)
  : popup_handler :=
  match a with
  | register_site => handleRegisterSite domain storage settings tab_id
  | toggle_active => handleToggleActive domain settings tab_id
  | change_font fontFamily => handleFontChange domain settings tab_id fontFamily
  | change_style change => handleStyleChange domain settings tab_id change
  | apply_preset preset => handleApplyPreset domain settings tab_id preset
  end.

(** ** The options page *)

(** How [handleSavePreset] ends: with one of its two error messages, or
    with the message of an update or of an addition. The form it resets
    afterwards is not part of the result. *)
Inductive save_outcome :=
  | name_missing
  | font_missing
  | preset_updated
  | preset_saved.

Definition handleSavePreset (presetName presetFont : jsstring)
    (presetStyles : SiteStyles) (editingPreset : option StylePreset.t)
  : Async save_outcome :=
  if bool_decide (trim presetName = []) then ret name_missing
  else if bool_decide (presetFont = []) then ret font_missing
  else
    match editingPreset with
    | Some editing =>
        updatePreset (StylePreset.id editing) presetName presetFont presetStyles ;;
        ret preset_updated
    | None =>
        addPreset presetName presetFont presetStyles ;;
        ret preset_saved
    end.

(** The form of the preset editor. *)
Record preset_form := {
  presetName : jsstring;
  presetFont : jsstring;
  presetStyles : SiteStyles;
  editingPreset : option StylePreset.t
}.

(** [handleEditPreset] fills the form from a stored preset. *)
Definition handleEditPreset (preset : StylePreset.t) : preset_form :=
  {| presetName := StylePreset.name preset;
     presetFont := StylePreset.fontFamily preset;
     presetStyles := spread_styles (StylePreset.styles preset);
     editingPreset := Some preset |}.

(** [x < y] on strings: the comparison of [Array.prototype.sort] without
    comparator, by code units, a proper prefix first. *)
Fixpoint string_lt (x y : jsstring) : bool :=
  match x, y with
  | _, [] => false
  | [], _ :: _ => true
  | a :: x', b :: y' => (a <? b) || ((a =? b) && string_lt x' y')
  end.

Fixpoint insert_sorted (x : jsstring) (l : list jsstring) : list jsstring :=
  match l with
  | [] => [x]
  | y :: l' => if string_lt y x then y :: insert_sorted x l' else x :: l
  end.

(** [array.sort()] on strings. Equal strings are indistinguishable, so
    every sorting procedure yields this list. *)
Definition Array_sort (l : list jsstring) : list jsstring := foldr insert_sorted [] l.

(** [[...new Set(xs)]]: the first occurrence of each string, in order. *)
Fixpoint unique_from (seen xs : list jsstring) : list jsstring :=
  match xs with
  | [] => []
  | x :: xs' =>
      if bool_decide (x ∈ seen) then unique_from seen xs'
      else x :: unique_from (x :: seen) xs'
  end.

Definition Set_spread (xs : list jsstring) : list jsstring := unique_from [] xs.

(** The field of [FontData] the page reads. *)
Record FontData := { family : jsstring }.

Inductive font_access := loading | granted | denied | unsupported.

(** The state of the font picker. *)
Record font_picker := {
  systemFonts : list jsstring;
  selectedFont : jsstring;
  useManualInput : bool;
  fontAccessStatus : font_access
}.

(** [loadSystemFonts]. [queryLocalFonts] is [None] where the browser has no
    such function, [Some None] where the call is rejected, else the fonts it
    resolves to. *)
Definition loadSystemFonts (queryLocalFonts : option (option (list FontData)))
    (st : font_picker) : font_picker :=
  match queryLocalFonts with
  | None =>
      {| systemFonts := systemFonts st; selectedFont := selectedFont st;
         useManualInput := true; fontAccessStatus := unsupported |}
  | Some (Some fonts) =>
      let uniqueFamilies := Array_sort (Set_spread (map family fonts)) in
      {| systemFonts := uniqueFamilies;
         selectedFont :=
           match uniqueFamilies with
           | first :: _ => first
           | [] => selectedFont st
           end;
         useManualInput := useManualInput st;
         fontAccessStatus := granted |}
  | Some None =>
      {| systemFonts := systemFonts st; selectedFont := selectedFont st;
         useManualInput := true; fontAccessStatus := denied |}
  end.

(** Every string of the list is below all that follow it. *)
Fixpoint ascending (l : list jsstring) : Prop :=
  match l with
  | [] => True
  | x :: l' => Forall (λ y, string_lt x y = true) l' ∧ ascending l'
  end.

(** ** Measures used in the statements *)

(** The elements of a page in tree order. *)
Definition elements (d : document) : list element :=
  default [] (head d) ++ documentElement d.

(** The elements that carry the id of the injected style, and the others. *)
Definition injected_styles (d : document) : list element :=
  filter (λ el, element_id el = STYLE_ID) (elements d).

Definition other_elements (d : document) : list element :=
  filter (λ el, element_id el ≠ STYLE_ID) (elements d).

Definition style_count (d : document) : nat := length (injected_styles d).

(** The element [appendChild] receives the new child. *)
Definition target_children (d : document) : list element :=
  match head d with
  | Some h => h
  | None => documentElement d
  end.

(** A font name as [addFavoriteFont] stores it: not empty, and without
    white space at either end. *)
Definition trimmed_name (f : jsstring) : Prop := f ≠ [] ∧ trim f = f.

(** The invariant of the font list: no duplicates, trimmed names only. *)
Definition fonts_invariant (w : browser) : Prop :=
  NoDup (favoriteFonts (stored w)) ∧ Forall trimmed_name (favoriteFonts (stored w)).

(** A call of one of the mutators of [utils/storage.ts]. *)
Inductive store_call :=
  | call_addFavoriteFont (fontName : jsstring)
  | call_removeFavoriteFont (fontName : jsstring)
  | call_setSiteSettings (domain : jsstring) (settings : SiteSettings)
  | call_removeSite (domain : jsstring)
  | call_addPreset (name fontFamily : jsstring) (styles : SiteStyles)
  | call_removePreset (presetId : jsstring)
  | call_updatePreset (presetId name fontFamily : jsstring) (styles : SiteStyles).

(** The browser state after the call. *)
Definition run_call (c : store_call) (w : browser) : browser :=
  match c with
  | call_addFavoriteFont fontName => (addFavoriteFont fontName w).2
  | call_removeFavoriteFont fontName => (removeFavoriteFont fontName w).2
  | call_setSiteSettings domain settings => (setSiteSettings domain settings w).2
  | call_removeSite domain => (removeSite domain w).2
  | call_addPreset name fontFamily styles => (addPreset name fontFamily styles w).2
  | call_removePreset presetId => (removePreset presetId w).2
  | call_updatePreset presetId name fontFamily styles =>
      (updatePreset presetId name fontFamily styles w).2
  end.

(** The browser state after the calls, one after the other. *)
Definition run_calls (cs : list store_call) (w : browser) : browser :=
  foldl (λ w c, run_call c w) w cs.

(** A preset as the options page saves it: a trimmed, non-empty name and a
    font. *)
Definition saved_preset (p : StylePreset.t) : Prop :=
  trimmed_name (StylePreset.name p) ∧ StylePreset.fontFamily p ≠ [].

(** The texts [generateCSS] interpolates as they are. *)
Definition interpolated_texts (s : SiteSettings) : list jsstring :=
  [fontFamily s; letterSpacing (styles s); wordSpacing (styles s);
   fontWeight (styles s)].

(** * Facts *)

(** ** Strings *)

Lemma trimStart_split (s : jsstring) :
  ∃ ws, s = ws ++ trimStart s ∧ Forall (λ c, is_white_space c = true) ws.
Proof.
  induction s as [|c s [ws [Hs Hws]]]; simpl.
  - exists []. by split.
  - destruct (is_white_space c) eqn:Hc.
    + exists (c :: ws). split; [simpl; by f_equal | by constructor].
    + exists []. by split.
Qed.

Lemma trimStart_head (s : jsstring) (c : N) (s' : jsstring) :
  trimStart s = c :: s' → is_white_space c = false.
Proof.
  induction s as [|d s IH]; simpl; [done|].
  destruct (is_white_space d) eqn:Hd; [done|].
  intros [= -> _]. done.
Qed.

Lemma trimStart_idem (s : jsstring) : trimStart (trimStart s) = trimStart s.
Proof.
  destruct (trimStart s) as [|c s'] eqn:E; [done|].
  simpl. by rewrite (trimStart_head _ _ _ E).
Qed.

(** What is left of a string that starts with a non-space character after
    its trailing white space is cut still starts with that character. *)
Lemma trimEnd_cons (c : N) (s : jsstring) :
  is_white_space c = false → ∃ s', trimEnd (c :: s) = c :: s'.
Proof.
  intros Hc. unfold trimEnd.
  destruct (trimStart_split (rev (c :: s))) as [ws [Hs Hws]].
  remember (trimStart (rev (c :: s))) as r eqn:Hr. clear Hr.
  simpl in Hs.
  destruct (rev r) as [|d r'] eqn:Er.
  - apply (f_equal (@rev N)) in Er. rewrite rev_involutive in Er. simpl in Er. subst r.
    rewrite app_nil_r in Hs. subst ws.
    rewrite Forall_app, Forall_singleton in Hws. destruct Hws as [_ Hws]. congruence.
  - exists r'. f_equal.
    apply (f_equal (@rev N)) in Hs. rewrite rev_app_distr, rev_app_distr in Hs.
    simpl in Hs. rewrite rev_involutive, Er in Hs. simpl in Hs. by injection Hs.
Qed.

(** [trim] cuts white space, and only white space, off both ends. *)
Lemma trim_spec (s : jsstring) :
  (∃ before after, s = before ++ trim s ++ after
     ∧ Forall (λ c, is_white_space c = true) before
     ∧ Forall (λ c, is_white_space c = true) after)
  ∧ (∀ c s', trim s = c :: s' → is_white_space c = false)
  ∧ (∀ c s', trim s = s' ++ [c] → is_white_space c = false).
Proof.
  unfold trim. split; [|split].
  - destruct (trimStart_split s) as [before [Hs Hb]].
    destruct (trimStart_split (rev (trimStart s))) as [after [Ha Haf]].
    exists before, (rev after). split; [|split].
    + rewrite Hs at 1. f_equal. unfold trimEnd.
      apply (f_equal (@rev N)) in Ha. rewrite rev_involutive, rev_app_distr in Ha. done.
    + done.
    + by apply Forall_rev.
  - intros c s' H.
    destruct (trimStart s) as [|d r] eqn:E; [done|].
    pose proof (trimStart_head _ _ _ E) as Hd.
    destruct (trimEnd_cons d r Hd) as [r' Hr']. rewrite Hr' in H.
    by injection H as <- _.
  - intros c s' H. unfold trimEnd in H.
    apply (f_equal (@rev N)) in H. rewrite rev_involutive, rev_app_distr in H. simpl in H.
    by apply trimStart_head in H.
Qed.

(** ** Conformance of the Number model on known values *)

Example Number_toString_values :
  Number_toString (ratio 16 10) = lit "1.6"
  ∧ Number_toString (ratio 1 3) = lit "0.3333333333333333"
  ∧ Number_toString (number_of_Z (10 ^ 21)) = lit "1e+21"
  ∧ Number_toString (number_of_Z 123456789012345678901) = lit "123456789012345680000"
  ∧ Number_toString (ratio 1 (10 ^ 7)) = lit "1e-7"
  ∧ Number_toString (ratio (-15) 10) = lit "-1.5"
  ∧ Number_toString (S754_finite false 1 (-1074)) = lit "5e-324"
  ∧ Number_toString (SFmax_float prec emax) = lit "1.7976931348623157e+308"
  ∧ Number_toString (number_mul (ratio 115 100) (number_of_Z 100)) = lit "114.99999999999999".
Proof. vm_compute. done. Qed.

Example toFixed0_values :
  toFixed0 (ratio 5 10) = lit "1"
  ∧ toFixed0 (ratio 25 10) = lit "3"
  ∧ toFixed0 (ratio (-25) 10) = lit "-3"
  ∧ toFixed0 (ratio (-4) 10) = lit "-0"
  ∧ toFixed0 (number_mul (ratio 115 100) (number_of_Z 100)) = lit "115"
  ∧ toFixed0 (number_of_Z (10 ^ 21)) = lit "1e+21"
  ∧ toFixed0 S754_nan = lit "NaN".
Proof. vm_compute. done. Qed.

Example integer_toString_values :
  integer_toString 36 1700000000000 = lit "loyw3v28"
  ∧ integer_toString 36 0 = lit "0"
  ∧ integer_toString 36 (-37) = lit "-11".
Proof. vm_compute. done. Qed.

Example trim_values :
  trim (lit "  Noto Sans  ") = lit "Noto Sans"
  ∧ trim [12288; 78; 111; 116; 111; 160; 65279] = lit "Noto"
  ∧ trim (lit "   ") = [].
Proof. vm_compute. done. Qed.

Example generateCSS_default :
  generateCSS (createDefaultSiteSettings (lit "Noto Sans"))
  = html_rule (styles_with_scale (number_of_Z 1))
    ++ lit "    " ++ element_rule_selector ++ lit " {
      font-family: " ++ dq ++ lit "Noto Sans" ++ dq ++ lit ", sans-serif !important;
      line-height: 1.6 !important;
      letter-spacing: 0px !important;
      word-spacing: 0px !important;
      
    }
  ".
Proof. vm_compute. reflexivity. Qed.

(** ** Digits *)

Lemma digit_value_char (d : N) : d < 36 → digit_value (digit_char d) = d.
Proof.
  intros H. unfold digit_value, digit_char.
  destruct (d <? 10) eqn:E.
  - apply N.ltb_lt in E. replace (48 + d <? 58) with true by (symmetry; apply N.ltb_lt; lia). lia.
  - apply N.ltb_ge in E. replace (87 + d <? 58) with false by (symmetry; apply N.ltb_ge; lia). lia.
Qed.

Lemma to_radix_fuel_value (radix : N) (fuel : nat) :
  2 ≤ radix → radix ≤ 36 →
  ∀ n acc, n < 2 ^ N.of_nat fuel →
  fold_left (λ a c, a * radix + digit_value c) (to_radix_fuel fuel radix n acc) 0
  = fold_left (λ a c, a * radix + digit_value c) acc n.
Proof.
  intros Hr2 Hr36. induction fuel as [|fuel IH]; intros n acc Hn.
  - simpl in *. replace n with 0 by lia. done.
  - simpl. assert (Hmod : n mod radix < radix) by (apply N.mod_lt; lia).
    destruct (n <? radix) eqn:E.
    + apply N.ltb_lt in E. simpl. rewrite N.mod_small by done.
      rewrite digit_value_char by lia. done.
    + apply N.ltb_ge in E. rewrite IH.
      * simpl. rewrite digit_value_char by lia.
        f_equal. rewrite N.mul_comm. symmetry. apply N.div_mod. lia.
      * rewrite Nat2N.inj_succ, N.pow_succ_r' in Hn.
        apply N.Div0.div_lt_upper_bound.
        eapply N.lt_le_trans; [exact Hn|]. apply N.mul_le_mono_r. done.
Qed.

Lemma from_radix_to_radix (radix n : N) :
  2 ≤ radix → radix ≤ 36 → from_radix radix (to_radix radix n) = n.
Proof.
  intros Hr2 Hr36. unfold from_radix, to_radix.
  rewrite to_radix_fuel_value; [done..|].
  rewrite Nat2N.inj_succ, N2Nat.id, N.pow_succ_r'.
  pose proof (N.size_gt n). lia.
Qed.

Lemma to_radix_inj (radix n1 n2 : N) :
  2 ≤ radix → radix ≤ 36 → to_radix radix n1 = to_radix radix n2 → n1 = n2.
Proof.
  intros Hr2 Hr36 H.
  rewrite <- (from_radix_to_radix radix n1), <- (from_radix_to_radix radix n2) by done.
  by rewrite H.
Qed.

(** Every character [to_radix] writes is a digit character. *)
Lemma to_radix_fuel_chars (radix : N) (P : N → Prop) (fuel : nat) :
  (∀ d, d < radix → P (digit_char d)) → 0 < radix →
  ∀ n acc, Forall P acc → Forall P (to_radix_fuel fuel radix n acc).
Proof.
  intros HP Hr. induction fuel as [|fuel IH]; intros n acc Hacc; simpl; [done|].
  assert (Hd : P (digit_char (n mod radix))) by (apply HP, N.mod_lt; lia).
  destruct (n <? radix); [by constructor|]. apply IH. by constructor.
Qed.

Lemma to_radix_chars (radix : N) (P : N → Prop) (n : N) :
  (∀ d, d < radix → P (digit_char d)) → 0 < radix → Forall P (to_radix radix n).
Proof. intros HP Hr. by apply to_radix_fuel_chars. Qed.

Lemma to_radix_nonempty (radix n : N) : to_radix radix n ≠ [].
Proof.
  unfold to_radix. simpl.
  assert (H : ∀ fuel m acc, acc ≠ [] → to_radix_fuel fuel radix m acc ≠ []).
  { induction fuel as [|fuel IH]; intros m acc Hacc; simpl; [done|].
    destruct (m <? radix); [done|]. by apply IH. }
  destruct (n <? radix); [done|]. by apply H.
Qed.

Lemma digit_char_not_minus (d : N) : d < 36 → digit_char d ≠ 45.
Proof. unfold digit_char. destruct (d <? 10); lia. Qed.

(** The rendering of an integer in radix 36 determines the integer. *)
Lemma integer_toString_inj (z1 z2 : Z) :
  integer_toString 36 z1 = integer_toString 36 z2 → z1 = z2.
Proof.
  assert (Hnm : ∀ n, ∀ l, to_radix 36 n ≠ 45 :: l).
  { intros n l H.
    pose proof (to_radix_chars 36 (λ c, c ≠ 45) n) as Hc.
    rewrite H in Hc. specialize (Hc digit_char_not_minus eq_refl).
    by apply Forall_cons in Hc as [? _]. }
  unfold integer_toString.
  destruct z1 as [|p1|p1], z2 as [|p2|p2]; simpl; intros H;
    try (by apply to_radix_inj in H; [lia..]);
    try (by apply Hnm in H); try (by symmetry in H; apply Hnm in H).
  injection H as H. apply to_radix_inj in H; [|lia..]. by injection H as ->.
Qed.

(** ** Occurrences of a text in a concatenation *)

Lemma is_prefix_app_sep (p x b : jsstring) (c : N) :
  not_in c p = true → is_prefix p (x ++ c :: b) = is_prefix p x.
Proof.
  revert x. induction p as [|h p IH]; intros x Hc; [by destruct x|].
  simpl in Hc. apply andb_true_iff in Hc as [Hh Hp].
  destruct x as [|y x]; simpl.
  - by rewrite (negb_true_iff _) in Hh; rewrite Hh.
  - by rewrite IH.
Qed.

Lemma count_occurrences_app_sep (p a b : jsstring) (c : N) :
  not_in c p = true →
  count_occurrences p (a ++ c :: b)
  = (count_occurrences p a + count_occurrences p b)%nat.
Proof.
  intros Hc. induction a as [|y a IH].
  - pose proof (is_prefix_app_sep p [] b c Hc) as H. simpl in *. by rewrite H.
  - change ((y :: a) ++ c :: b) with (y :: (a ++ c :: b)).
    cbn [count_occurrences]. rewrite IH.
    change (y :: a ++ c :: b) with ((y :: a) ++ c :: b).
    rewrite (is_prefix_app_sep p (y :: a) b c Hc). lia.
Qed.

Lemma count_occurrences_nil (p : jsstring) : p ≠ [] → count_occurrences p [] = 0%nat.
Proof. by destruct p. Qed.

Lemma count_occurrences_app_end (p a b : jsstring) :
  ends_outside p a = true →
  count_occurrences p (a ++ b) = (count_occurrences p a + count_occurrences p b)%nat.
Proof.
  unfold ends_outside. destruct p as [|h p'] eqn:Ep; [done|]. rewrite <- Ep.
  destruct (last a) as [c|] eqn:El; [|done]. intros Hc.
  apply last_Some in El as [a' ->].
  rewrite <- app_assoc. simpl.
  rewrite !count_occurrences_app_sep by done.
  rewrite count_occurrences_nil by (by subst). lia.
Qed.

Lemma count_occurrences_app_start (p a b : jsstring) :
  starts_outside p b = true →
  count_occurrences p (a ++ b) = (count_occurrences p a + count_occurrences p b)%nat.
Proof.
  unfold starts_outside. destruct p as [|h p'] eqn:Ep; [done|]. rewrite <- Ep.
  destruct b as [|c b]; [done|]. intros Hc.
  rewrite count_occurrences_app_sep by done.
  f_equal. cbn [count_occurrences].
  pose proof (is_prefix_app_sep p [] b c Hc) as H. simpl in H. rewrite H. by subst.
Qed.

Lemma starts_outside_app (p a b : jsstring) :
  starts_outside p a = true → starts_outside p (a ++ b) = true.
Proof. unfold starts_outside. by destruct p, a. Qed.

Lemma occurs_count (p s : jsstring) :
  occurs p s = false ↔ count_occurrences p s = 0%nat.
Proof.
  induction s as [|c s IH]; simpl.
  - rewrite orb_false_r. by destruct (is_prefix p []).
  - rewrite orb_false_iff, IH.
    destruct (is_prefix p (c :: s)); [split; [by intros [? ?]|lia]|].
    split; [by intros [_ ->]|]. intros H. split; [done|lia].
Qed.

Lemma occurs_true_count (p s : jsstring) :
  occurs p s = true ↔ (0 < count_occurrences p s)%nat.
Proof.
  pose proof (occurs_count p s) as H. destruct (occurs p s).
  - split; [intros _|done]. destruct (count_occurrences p s); [|lia].
    assert (true = false) by tauto. done.
  - split; [done|]. assert (count_occurrences p s = 0%nat) by tauto. lia.
Qed.

(** A text occurs only in strings that have each of its characters. *)
Lemma is_prefix_elem (p s : jsstring) (c : N) :
  is_prefix p s = true → c ∈ p → c ∈ s.
Proof.
  revert s. induction p as [|h p IH]; intros s H Hc; [by apply elem_of_nil in Hc|].
  destruct s as [|y s]; [done|]. simpl in H. apply andb_true_iff in H as [Hh Hp].
  apply N.eqb_eq in Hh as ->. apply elem_of_cons in Hc as [->|Hc].
  - by left.
  - right. by apply IH.
Qed.

Lemma occurs_elem (p s : jsstring) (c : N) :
  occurs p s = true → c ∈ p → c ∈ s.
Proof.
  induction s as [|y s IH]; simpl; intros H Hc.
  - rewrite orb_false_r in H. by eapply is_prefix_elem.
  - apply orb_true_iff in H as [H|H].
    + by eapply is_prefix_elem.
    + right. by apply IH.
Qed.

Lemma count_occurrences_missing_char (p s : jsstring) (c : N) :
  c ∈ p → c ∉ s → count_occurrences p s = 0%nat.
Proof.
  intros Hp Hs. apply occurs_count.
  destruct (occurs p s) eqn:E; [|done]. destruct Hs. by eapply occurs_elem.
Qed.

(** ** The text of a Number *)

Lemma decimal_number_text (n : N) : number_text (decimal n).
Proof.
  apply to_radix_chars; [|done].
  intros d Hd. unfold digit_char. replace (d <? 10) with true by (symmetry; by apply N.ltb_lt).
  unfold number_char. apply orb_true_iff. left. apply andb_true_iff.
  split; apply N.leb_le; lia.
Qed.

Lemma sign_number_text (s : bool) : number_text (if s then lit "-" else []).
Proof. destruct s; by repeat constructor. Qed.

Lemma format_decimal_number_text (ds : jsstring) (n : Z) :
  number_text ds → number_text (format_decimal ds n).
Proof.
  intros Hds. unfold format_decimal.
  set (exponent := lit "e" ++ _ ++ _).
  assert (Hexp : number_text exponent).
  { apply Forall_app. split; [by repeat constructor|]. apply Forall_app.
    split; [destruct (n - 1 <? 0)%Z; by repeat constructor|apply decimal_number_text]. }
  clearbody exponent.
  assert (Hzeros : ∀ k, number_text (replicate k 48)).
  { intros k. by apply Forall_replicate. }
  destruct (_ && _).
  { apply Forall_app. by split. }
  destruct (_ && _).
  { apply Forall_app. split; [by apply Forall_take|].
    apply Forall_app. split; [by repeat constructor|by apply Forall_drop]. }
  destruct (_ && _).
  { apply Forall_app. split; [by repeat constructor|]. apply Forall_app. by split. }
  destruct Hds as [|d ds Hd Hds]; [done|].
  destruct Hds as [|d' ds Hd' Hds].
  - apply Forall_app. split; [by repeat constructor|done].
  - apply Forall_app. split; [by repeat constructor|].
    apply Forall_app. split; [by repeat constructor|].
    apply Forall_app. split; [by constructor|done].
Qed.

Lemma Number_toString_number_text (x : number) : number_text (Number_toString x).
Proof.
  destruct x as [s|s| |s m e]; simpl.
  - by repeat constructor.
  - apply Forall_app. split; [apply sign_number_text|by repeat constructor].
  - by repeat constructor.
  - destruct (shortest m e) as [digits t].
    apply Forall_app. split; [apply sign_number_text|].
    apply format_decimal_number_text, decimal_number_text.
Qed.

Lemma toFixed0_number_text (x : number) : number_text (toFixed0 x).
Proof.
  destruct x as [s|s| |s m e]; unfold toFixed0.
  - by repeat constructor.
  - apply Number_toString_number_text.
  - apply Number_toString_number_text.
  - apply Forall_app. split; [apply sign_number_text|].
    destruct (at_least_1e21 m e);
      [apply Number_toString_number_text|apply decimal_number_text].
Qed.

(** No text with a character outside those occurs in a rendered Number. *)
Lemma number_text_count (p s : jsstring) (c : N) :
  number_text s → c ∈ p → number_char c = false → count_occurrences p s = 0%nat.
Proof.
  intros Hs Hp Hc. apply (count_occurrences_missing_char p s c Hp).
  intros Hin. rewrite Forall_forall in Hs. specialize (Hs c Hin). congruence.
Qed.

(** ** The rendered style sheet *)

Lemma generateCSS_template (s : SiteSettings) :
  generateCSS s =
    template_0 ++ fontSizePercent (styles s)
    ++ template_1 ++ fontFamily s
    ++ template_2 ++ Number_toString (lineHeight (styles s))
    ++ template_3 ++ letterSpacing (styles s)
    ++ template_4 ++ wordSpacing (styles s)
    ++ template_5 ++ fontWeightCSS (styles s)
    ++ template_6.
Proof.
  unfold generateCSS, html_rule, element_rule, template_0, template_1, template_2,
    template_3, template_4, template_5, template_6.
  rewrite <- !app_assoc. reflexivity.
Qed.

(** ** The settings store *)

Lemma getStorage_unchanged (w : browser) : (getStorage w).2 = w.
Proof. done. Qed.

Lemma stored_with_sync (a : PartialUserStorage) (w : browser) :
  stored (with_sync a w) =
  {| favoriteFonts := default [] (favoriteFonts_opt a);
     siteSettings := default ∅ (siteSettings_opt a);
     presets := default [] (presets_opt a) |}.
Proof. done. Qed.

Lemma occurrences_app x l1 l2 :
  occurrences x (l1 ++ l2) = (occurrences x l1 + occurrences x l2)%nat.
Proof. unfold occurrences. by rewrite filter_app, length_app. Qed.

Lemma occurrences_notin x l : x ∉ l → occurrences x l = 0%nat.
Proof.
  unfold occurrences. induction l as [|y l IH]; [done|].
  rewrite not_elem_of_cons. intros [Hxy Hl].
  rewrite filter_cons_False by congruence. auto.
Qed.

Lemma occurrences_in x l : x ∈ l → (1 ≤ occurrences x l)%nat.
Proof.
  unfold occurrences. induction 1 as [x l|x y l Hin IH].
  - rewrite filter_cons_True by done. simpl. lia.
  - destruct (decide (y = x)) as [->|Hne].
    + rewrite filter_cons_True by done. simpl. lia.
    + by rewrite filter_cons_False.
Qed.

Lemma occurrences_NoDup x l : NoDup l → x ∈ l → occurrences x l = 1%nat.
Proof.
  unfold occurrences. induction 1 as [|y l Hy Hl IH]; [by rewrite elem_of_nil|].
  rewrite elem_of_cons. intros [->|Hx].
  - rewrite filter_cons_True by done. simpl. f_equal. by apply occurrences_notin.
  - rewrite filter_cons_False by (intros ->; done). auto.
Qed.

Lemma addFavoriteFont_rejected fontName w :
  trim fontName = [] ∨ trim fontName ∈ favoriteFonts (stored w) →
  addFavoriteFont fontName w = (false, w).
Proof.
  intros H. run_async. unfold includes.
  destruct H as [H|H].
  - by rewrite bool_decide_eq_true_2.
  - rewrite (bool_decide_eq_true_2 (_ ∈ _)) by done. by rewrite orb_true_r.
Qed.

Lemma addFavoriteFont_accepted fontName w :
  trim fontName ≠ [] → trim fontName ∉ favoriteFonts (stored w) →
  addFavoriteFont fontName w =
    (true, with_sync
             {| favoriteFonts_opt := Some (favoriteFonts (stored w) ++ [trim fontName]);
                siteSettings_opt := siteSettings_opt (sync w);
                presets_opt := presets_opt (sync w) |} w).
Proof.
  intros H1 H2. run_async. unfold includes.
  rewrite bool_decide_eq_false_2 by done.
  rewrite bool_decide_eq_false_2 by done. simpl.
  by destruct (siteSettings_opt (sync w)), (presets_opt (sync w)).
Qed.

Lemma addFavoriteFont_NoDup fontName w :
  NoDup (favoriteFonts (stored w)) →
  NoDup (favoriteFonts (stored (addFavoriteFont fontName w).2)).
Proof.
  intros Hnd.
  destruct (decide (trim fontName = [] ∨ trim fontName ∈ favoriteFonts (stored w))) as [H|H].
  - by rewrite addFavoriteFont_rejected.
  - rewrite addFavoriteFont_accepted by tauto. simpl.
    apply NoDup_app. split; [done|]. split; [|apply NoDup_singleton].
    intros x Hx ->%list_elem_of_singleton. tauto.
Qed.

(** C1. [addFavoriteFont] trims the name (white space, and nothing else, is
    cut off both ends); with an empty trimmed name or one already among the
    favorite fonts it returns [false] and leaves the browser state, hence the
    persisted document, as it was; otherwise it returns [true] and persists
    the font list extended by the trimmed name, the other keys untouched.
    Consequently the second of two calls with "Pretendard" is rejected and
    changes nothing, and after them the name is in the list as often as
    before, or once if it was not there: exactly once on every document
    whose font list has no duplicates. *)
Theorem addFavoriteFont_spec (fontName : jsstring) (w : browser) :
  let fonts := favoriteFonts (stored w) in
  let trimmed := trim fontName in
  (∃ before after, fontName = before ++ trimmed ++ after
     ∧ Forall (λ c, is_white_space c = true) before
     ∧ Forall (λ c, is_white_space c = true) after)
  ∧ (∀ c s, trimmed = c :: s → is_white_space c = false)
  ∧ (∀ c s, trimmed = s ++ [c] → is_white_space c = false)
  ∧ (trimmed = [] ∨ trimmed ∈ fonts → addFavoriteFont fontName w = (false, w))
  ∧ (trimmed ≠ [] → trimmed ∉ fonts →
       (addFavoriteFont fontName w).1 = true
       ∧ favoriteFonts (stored (addFavoriteFont fontName w).2) = fonts ++ [trimmed]
       ∧ siteSettings (stored (addFavoriteFont fontName w).2) = siteSettings (stored w)
       ∧ presets (stored (addFavoriteFont fontName w).2) = presets (stored w)
       ∧ sync (addFavoriteFont fontName w).2 =
           {| favoriteFonts_opt := Some (fonts ++ [trimmed]);
              siteSettings_opt := siteSettings_opt (sync w);
              presets_opt := presets_opt (sync w) |})
  ∧ (let w1 := (addFavoriteFont (lit "Pretendard") w).2 in
     let w2 := (addFavoriteFont (lit "Pretendard") w1).2 in
     (addFavoriteFont (lit "Pretendard") w1).1 = false
     ∧ w2 = w1
     ∧ occurrences (lit "Pretendard") (favoriteFonts (stored w2))
       = Nat.max 1 (occurrences (lit "Pretendard") fonts)
     ∧ (NoDup fonts →
        occurrences (lit "Pretendard") (favoriteFonts (stored w2)) = 1%nat)).
Proof.
  intros fonts trimmed.
  destruct (trim_spec fontName) as (Hsplit & Hfirst & Hlast).
  split; [exact Hsplit|]. split; [exact Hfirst|]. split; [exact Hlast|].
  split; [apply addFavoriteFont_rejected|]. split.
  - intros H1 H2. rewrite (addFavoriteFont_accepted _ _ H1 H2). by repeat split.
  - intros w1 w2.
    assert (Htrim : trim (lit "Pretendard") = lit "Pretendard") by (vm_compute; reflexivity).
    assert (Hin : lit "Pretendard" ∈ favoriteFonts (stored w1)).
    { subst w1. destruct (decide (lit "Pretendard" ∈ fonts)) as [H|H].
      - rewrite addFavoriteFont_rejected; [done|]. rewrite Htrim. by right.
      - rewrite addFavoriteFont_accepted; rewrite ?Htrim; [|done|done].
        simpl. apply elem_of_app. right. by apply list_elem_of_singleton. }
    assert (Hrej : addFavoriteFont (lit "Pretendard") w1 = (false, w1)).
    { apply addFavoriteFont_rejected. rewrite Htrim. by right. }
    subst w2. rewrite Hrej. simpl. split; [done|]. split; [done|]. split.
    + subst w1. destruct (decide (lit "Pretendard" ∈ fonts)) as [H|H].
      * rewrite addFavoriteFont_rejected by (rewrite Htrim; by right).
        pose proof (occurrences_in _ _ H) as Hocc. unfold fonts in *. simpl in *. lia.
      * rewrite addFavoriteFont_accepted; rewrite ?Htrim; [|done|done].
        unfold fonts in *. simpl in *.
        rewrite occurrences_app, (occurrences_notin _ _ H). reflexivity.
    + intros Hnd. apply occurrences_NoDup; [|done].
      subst w1. by apply addFavoriteFont_NoDup.
Qed.

Lemma addFavoriteFont_spec_witness :
  (addFavoriteFont (lit "  Pretendard ") fresh_browser).1 = true
  ∧ favoriteFonts (stored (addFavoriteFont (lit "  Pretendard ") fresh_browser).2)
      = [lit "Pretendard"]
  ∧ occurrences (lit "Pretendard")
      (favoriteFonts (stored
         (addFavoriteFont (lit "Pretendard")
            (addFavoriteFont (lit "Pretendard") fresh_browser).2).2)) = 1%nat.
Proof.
  destruct (addFavoriteFont_spec (lit "  Pretendard ") fresh_browser)
    as (_ & _ & _ & _ & Hadd & Htwice).
  destruct Hadd as (Htrue & Hfonts & _).
  { vm_compute. discriminate. }
  { apply not_elem_of_nil. }
  destruct Htwice as (_ & _ & _ & Honce).
  split; [exact Htrue|]. split; [exact Hfonts|]. apply Honce, NoDup_nil_2.
Defined.

Lemma setSiteSettings_sync domain cfg w :
  sync (setSiteSettings domain cfg w).2 =
    {| favoriteFonts_opt := favoriteFonts_opt (sync w);
       siteSettings_opt := Some (set_property (siteSettings (stored w)) domain cfg);
       presets_opt := presets_opt (sync w) |}.
Proof. run_async. by destruct (favoriteFonts_opt (sync w)), (presets_opt (sync w)). Qed.

Lemma setSiteSettings_stored domain cfg w :
  siteSettings (stored (setSiteSettings domain cfg w).2)
  = set_property (siteSettings (stored w)) domain cfg.
Proof. done. Qed.

(** Away from the key [__proto__] (and at it, when the stored object has an
    own property of that name) the upsert reads back. *)
Lemma setSiteSettings_getSiteSettings domain cfg w :
  domain ≠ lit "__proto__" ∨ is_Some (siteSettings (stored w) !! domain) →
  (getSiteSettings domain (setSiteSettings domain cfg w).2).1 = Some (own_settings cfg).
Proof.
  intros H. run_async. unfold get_property, set_property.
  destruct H as [H|[s H]].
  - rewrite (bool_decide_eq_false_2 _ H). simpl. by rewrite lookup_insert_eq.
  - rewrite (bool_decide_eq_false_2 (_ = None)) by (rewrite H; done).
    rewrite andb_false_r. by rewrite lookup_insert_eq.
Qed.

Lemma setSiteSettings_other domain domain' cfg w :
  domain ≠ domain' →
  (getSiteSettings domain' (setSiteSettings domain cfg w).2).1
  = (getSiteSettings domain' w).1.
Proof.
  intros H. run_async. unfold get_property, set_property.
  destruct (_ && _); [done|]. by rewrite lookup_insert_ne.
Qed.

(** C2, at the domain [__proto__]: on a storage area without site settings
    the upsert persists no entry, and the read that follows yields the
    member of [Object.prototype] of that name, not the settings written. *)
Theorem setSiteSettings_proto_lost :
  let w' := (setSiteSettings (lit "__proto__") example_settings fresh_browser).2 in
  siteSettings_opt (sync w') = Some ∅
  ∧ (getSiteSettings (lit "__proto__") w').1 = Some (prototype_member (lit "__proto__"))
  ∧ (getSiteSettings (lit "__proto__") w').1 ≠ Some (own_settings example_settings).
Proof.
  assert (H : (getSiteSettings (lit "__proto__")
                 (setSiteSettings (lit "__proto__") example_settings fresh_browser).2).1
              = Some (prototype_member (lit "__proto__"))).
  { reflexivity. }
  intros w'. subst w'. split; [reflexivity|]. split; [exact H|]. rewrite H. discriminate.
Qed.

(** ** Presets *)

Lemma updatePreset_absent presetId name fontFamily styles w :
  Forall (λ p, StylePreset.id p ≠ presetId) (presets (stored w)) →
  updatePreset presetId name fontFamily styles w = (tt, w).
Proof.
  intros H.
  assert (Hfind : list_find (λ p, StylePreset.id p = presetId) (presets (stored w)) = None)
    by (by apply list_find_None).
  run_async. by rewrite Hfind.
Qed.

Lemma updatePreset_present presetId name fontFamily styles w before old after :
  presets (stored w) = before ++ old :: after →
  Forall (λ p, StylePreset.id p ≠ presetId) before →
  StylePreset.id old = presetId →
  updatePreset presetId name fontFamily styles w =
    (tt, with_sync
           {| favoriteFonts_opt := favoriteFonts_opt (sync w);
              siteSettings_opt := siteSettings_opt (sync w);
              presets_opt :=
                Some (before ++
                      {| StylePreset.id := StylePreset.id old;
                         StylePreset.name := trim name;
                         StylePreset.fontFamily := fontFamily;
                         StylePreset.styles := styles |} :: after) |} w).
Proof.
  intros Hps Hbefore Hold.
  assert (Hfind : list_find (λ p, StylePreset.id p = presetId) (presets (stored w))
                  = Some (length before, old)).
  { rewrite Hps. apply list_find_Some. split; [|split].
    - by rewrite list_lookup_middle.
    - done.
    - intros j y Hj Hlt. rewrite lookup_app_l in Hj by done.
      by eapply Forall_lookup_1 in Hbefore. }
  run_async. rewrite Hfind. rewrite Hps. simpl.
  rewrite insert_app_r_alt by done. rewrite Nat.sub_diag. simpl.
  destruct styles. simpl.
  by destruct (favoriteFonts_opt (sync w)), (siteSettings_opt (sync w)).
Qed.

(** C8. Without a preset of the given id [updatePreset] leaves the browser
    state, hence the persisted document, as it was. With one, the first
    preset of that id gets the trimmed name, the given font family and the
    given styles (a copy field by field: the store holds values, no
    reference to the caller's object), keeps its id, and every other preset,
    the font list and the site settings stay as they were. *)
Theorem updatePreset_spec (presetId name fontFamily : jsstring) (styles : SiteStyles)
    (w : browser) :
  (Forall (λ p, StylePreset.id p ≠ presetId) (presets (stored w)) →
     updatePreset presetId name fontFamily styles w = (tt, w))
  ∧ (∀ before old after,
       presets (stored w) = before ++ old :: after →
       Forall (λ p, StylePreset.id p ≠ presetId) before →
       StylePreset.id old = presetId →
       let w' := (updatePreset presetId name fontFamily styles w).2 in
       presets (stored w') =
         before ++ {| StylePreset.id := presetId;
                      StylePreset.name := trim name;
                      StylePreset.fontFamily := fontFamily;
                      StylePreset.styles := styles |} :: after
       ∧ favoriteFonts_opt (sync w') = favoriteFonts_opt (sync w)
       ∧ siteSettings_opt (sync w') = siteSettings_opt (sync w)
       ∧ spread_styles styles = styles).
Proof.
  split; [apply updatePreset_absent|].
  intros before old after Hps Hbefore Hold w'. subst w'.
  rewrite (updatePreset_present _ _ _ _ _ _ _ _ Hps Hbefore Hold).
  rewrite Hold. simpl. repeat split. by destruct styles.
Qed.

Lemma addPreset_result name fontFamily styles w :
  addPreset name fontFamily styles w =
    (let p := {| StylePreset.id := integer_toString 36 (clock w)
                                   ++ substr 2 (random36 w (draws w));
                 StylePreset.name := trim name;
                 StylePreset.fontFamily := fontFamily;
                 StylePreset.styles := styles |} in
     (p, {| sync := {| favoriteFonts_opt := favoriteFonts_opt (sync w);
                       siteSettings_opt := siteSettings_opt (sync w);
                       presets_opt := Some (presets (stored w) ++ [p]) |};
            clock := clock w; random36 := random36 w; draws := S (draws w);
            hostname := hostname w; page := page w |})).
Proof.
  run_async. unfold with_sync. simpl. destruct styles. simpl.
  by destruct (favoriteFonts_opt (sync w)), (siteSettings_opt (sync w)).
Qed.

(** C3 as stated fails: on a document that holds a preset with the id the
    scheme yields next, [addPreset] returns a record with that same id. *)
Lemma addPreset_id_collision :
  ¬ (∀ (w : browser) (name fontFamily : jsstring) (styles : SiteStyles) (q : StylePreset.t),
       q ∈ presets (stored w) →
       StylePreset.id (addPreset name fontFamily styles w).1 ≠ StylePreset.id q).
Proof.
  intros H.
  apply (H browser_with_preset (lit "Coding") (lit "Pretendard") DEFAULT_SITE_STYLES
           {| StylePreset.id := lit "loyw3v284fzyo82mvyr";
              StylePreset.name := lit "Reading";
              StylePreset.fontFamily := lit "Pretendard";
              StylePreset.styles := DEFAULT_SITE_STYLES |}).
  - apply list_elem_of_singleton. reflexivity.
  - vm_compute. reflexivity.
Qed.

(** C3, amended. [addPreset] makes no collision check: the id of the record
    it returns is the clock value in radix 36 followed by the random draw, in
    radix 36, without its first two characters, and the record is appended
    to the presets whatever ids they have. That id differs from the id of
    every preset that the same scheme made from a clock value with as many
    digits in radix 36 and a different clock value or a different random
    suffix. *)
Theorem addPreset_id (name fontFamily : jsstring) (styles : SiteStyles) (w : browser) :
  let p := (addPreset name fontFamily styles w).1 in
  let w' := (addPreset name fontFamily styles w).2 in
  StylePreset.id p = integer_toString 36 (clock w) ++ substr 2 (random36 w (draws w))
  ∧ presets (stored w') = presets (stored w) ++ [p]
  ∧ ∀ (q : StylePreset.t) (t : Z) (r : jsstring),
      q ∈ presets (stored w) →
      StylePreset.id q = integer_toString 36 t ++ substr 2 r →
      length (integer_toString 36 t) = length (integer_toString 36 (clock w)) →
      t ≠ clock w ∨ substr 2 r ≠ substr 2 (random36 w (draws w)) →
      StylePreset.id p ≠ StylePreset.id q.
Proof.
  intros p w'. subst p w'. rewrite addPreset_result. simpl.
  split; [done|]. split; [done|].
  intros q t r _ Hq Hlen Hdiff Heq. rewrite Hq in Heq.
  apply app_inj_1 in Heq as [Ht Hr]; [|done].
  apply integer_toString_inj in Ht. destruct Hdiff as [Hd|Hd]; congruence.
Qed.

Lemma addPreset_id_witness :
  StylePreset.id
    (addPreset (lit "Coding") (lit "Pretendard") DEFAULT_SITE_STYLES browser_one_ms_later).1
  ≠ lit "loyw3v284fzyo82mvyr".
Proof.
  destruct (addPreset_id (lit "Coding") (lit "Pretendard") DEFAULT_SITE_STYLES
              browser_one_ms_later) as (_ & _ & Hfresh).
  apply (Hfresh {| StylePreset.id := lit "loyw3v284fzyo82mvyr";
                   StylePreset.name := lit "Reading";
                   StylePreset.fontFamily := lit "Pretendard";
                   StylePreset.styles := DEFAULT_SITE_STYLES |}
                1700000000000%Z (lit "0.4fzyo82mvyr")).
  - apply list_elem_of_singleton. reflexivity.
  - vm_compute. reflexivity.
  - vm_compute. reflexivity.
  - left. discriminate.
Defined.

Lemma updatePreset_spec_witness :
  presets (stored (updatePreset (lit "loyw3v29k2j1") (lit " Wide ") (lit "Inter")
                     DEFAULT_SITE_STYLES
                     (with_sync (only_presets two_presets) fresh_browser)).2)
  = [ {| StylePreset.id := lit "loyw3v284fzyo82mvyr";
         StylePreset.name := lit "Reading";
         StylePreset.fontFamily := lit "Pretendard";
         StylePreset.styles := DEFAULT_SITE_STYLES |};
      {| StylePreset.id := lit "loyw3v29k2j1";
         StylePreset.name := lit "Wide";
         StylePreset.fontFamily := lit "Inter";
         StylePreset.styles := DEFAULT_SITE_STYLES |} ]
  ∧ updatePreset (lit "absent") (lit " Wide ") (lit "Inter") DEFAULT_SITE_STYLES
      (with_sync (only_presets two_presets) fresh_browser)
    = (tt, with_sync (only_presets two_presets) fresh_browser).
Proof.
  split.
  - destruct (updatePreset_spec (lit "loyw3v29k2j1") (lit " Wide ") (lit "Inter")
                DEFAULT_SITE_STYLES (with_sync (only_presets two_presets) fresh_browser))
      as [_ H].
    destruct (H [ {| StylePreset.id := lit "loyw3v284fzyo82mvyr";
                     StylePreset.name := lit "Reading";
                     StylePreset.fontFamily := lit "Pretendard";
                     StylePreset.styles := DEFAULT_SITE_STYLES |} ]
                {| StylePreset.id := lit "loyw3v29k2j1";
                   StylePreset.name := lit "Coding";
                   StylePreset.fontFamily := lit "Noto Sans";
                   StylePreset.styles := DEFAULT_SITE_STYLES |} [])
      as (Hps & _).
    + reflexivity.
    + apply Forall_singleton. vm_compute. discriminate.
    + reflexivity.
    + exact Hps.
  - apply (updatePreset_spec (lit "absent") (lit " Wide ") (lit "Inter")
             DEFAULT_SITE_STYLES (with_sync (only_presets two_presets) fresh_browser)).
    repeat constructor; vm_compute; discriminate.
Defined.

Lemma count_occurrences_generateCSS (p : jsstring) (s : SiteSettings) :
  fits_template p = true →
  count_occurrences p (generateCSS s) =
    (template_count p
     + count_occurrences p (fontSizePercent (styles s))
     + count_occurrences p (fontFamily s)
     + count_occurrences p (Number_toString (lineHeight (styles s)))
     + count_occurrences p (letterSpacing (styles s))
     + count_occurrences p (wordSpacing (styles s))
     + count_occurrences p (fontWeightCSS (styles s)))%nat.
Proof.
  unfold fits_template. rewrite !andb_true_iff.
  intros [[[[[[[[[[[E0 S1] E1] S2] E2] S3] E3] S4] E4] S5] E5] S6].
  rewrite generateCSS_template. unfold template_count.
  rewrite (count_occurrences_app_end p template_0) by done.
  rewrite (count_occurrences_app_start p (fontSizePercent _)) by (by apply starts_outside_app).
  rewrite (count_occurrences_app_end p template_1) by done.
  rewrite (count_occurrences_app_start p (fontFamily _)) by (by apply starts_outside_app).
  rewrite (count_occurrences_app_end p template_2) by done.
  rewrite (count_occurrences_app_start p (Number_toString _)) by (by apply starts_outside_app).
  rewrite (count_occurrences_app_end p template_3) by done.
  rewrite (count_occurrences_app_start p (letterSpacing _)) by (by apply starts_outside_app).
  rewrite (count_occurrences_app_end p template_4) by done.
  rewrite (count_occurrences_app_start p (wordSpacing _)) by (by apply starts_outside_app).
  rewrite (count_occurrences_app_end p template_5) by done.
  rewrite (count_occurrences_app_start p (fontWeightCSS _)) by done.
  lia.
Qed.

Lemma is_prefix_app (p x : jsstring) : is_prefix p (p ++ x) = true.
Proof. induction p as [|c p IH]; [done|]. simpl. by rewrite N.eqb_refl. Qed.

Lemma occurs_here (p x : jsstring) : occurs p (p ++ x) = true.
Proof. destruct (p ++ x) eqn:E; simpl; rewrite <- E, is_prefix_app; done. Qed.

Lemma occurs_app_r (p a b : jsstring) : occurs p b = true → occurs p (a ++ b) = true.
Proof.
  intros H. induction a as [|c a IH]; [done|].
  simpl. rewrite IH. apply orb_true_r.
Qed.







(** ** The font size *)

(** [toFixed(0)] of a positive Number below 10^21 is the decimal text of an
    integer at most one half away from it. *)
Lemma round_half_up_close (m : positive) (e : Z) :
  let n := round_half_up m e in
  (0 ≤ n ∧ 2 * Z.abs (n * frac_den e - frac_num m e) ≤ frac_den e)%Z.
Proof.
  unfold round_half_up.
  assert (Hd : (0 < frac_den e)%Z).
  { unfold frac_den. destruct (0 <=? e)%Z eqn:E; [lia|].
    apply Z.leb_gt in E. apply Z.pow_pos_nonneg; lia. }
  assert (Ha : (0 < frac_num m e)%Z).
  { unfold frac_num. destruct (0 <=? e)%Z eqn:E; [|lia].
    apply Z.leb_le in E. apply Z.mul_pos_pos; [lia|]. apply Z.pow_pos_nonneg; lia. }
  set (a := frac_num m e) in *. set (d := frac_den e) in *.
  pose proof (Z.div_mod (2 * a + d) (2 * d) ltac:(lia)) as Hdm.
  pose proof (Z.mod_pos_bound (2 * a + d) (2 * d) ltac:(lia)) as Hmod.
  set (n := ((2 * a + d) / (2 * d))%Z) in *.
  set (r := ((2 * a + d) mod (2 * d))%Z) in *.
  split; [apply Z.div_pos; lia|]. clearbody n r. lia.
Qed.

Lemma toFixed0_finite (m : positive) (e : Z) :
  at_least_1e21 m e = false →
  toFixed0 (S754_finite false m e) = decimal (Z.to_N (round_half_up m e)).
Proof. intros H. unfold toFixed0. by rewrite H. Qed.

Lemma fontSizePercent_fallback (st : SiteStyles) :
  ToBoolean (fontSizeScale st) = false → fontSizePercent st = lit "100".
Proof. intros H. unfold fontSizePercent, number_or. rewrite H. by vm_compute. Qed.

(** At each position of the popup's slider (0.8 to 1.6 in steps of 0.05)
    the percentage is the scale times 100. *)
Lemma fontSizePercent_slider :
  Forall (λ k, fontSizePercent (styles_with_scale (ratio (5 * k) 100))
               = decimal (Z.to_N (5 * k)))
         (map Z.of_nat (seq 16 17)).
Proof. apply (bool_decide_unpack _). vm_compute. exact I. Qed.

(** C5 as stated fails: for the scale 0 the percentage written is 100, not
    0, and for the scale 1.234 it is 123, not 123.4. *)
Lemma fontSizePercent_not_scale_times_100 :
  (fontSizePercent (styles_with_scale (S754_zero false)) = lit "100"
   ∧ Number_toString (number_mul (S754_zero false) (number_of_Z 100)) = lit "0")
  ∧ (fontSizePercent (styles_with_scale (ratio 1234 1000)) = lit "123"
     ∧ Number_toString (number_mul (ratio 1234 1000) (number_of_Z 100)) = lit "123.4")
  ∧ occurs (lit "font-size: 100% !important;")
      (generateCSS {| isActive := true; fontFamily := lit "Pretendard";
                      styles := styles_with_scale (S754_zero false) |}) = true.
Proof. vm_compute. done. Qed.

Lemma count_occurrences_fontWeightCSS (p : jsstring) (st : SiteStyles) :
  ends_outside p (lit "font-weight: ") = true →
  starts_outside p (lit " !important;") = true →
  count_occurrences p (lit "font-weight: ") = 0%nat →
  count_occurrences p (lit " !important;") = 0%nat →
  count_occurrences p (lit "inherit") = 0%nat →
  count_occurrences p (fontWeightCSS st) = count_occurrences p (fontWeight st).
Proof.
  intros He Hs H1 H2 H3. unfold fontWeightCSS. case_bool_decide as Hw.
  - rewrite Hw, H3. apply count_occurrences_nil. by destruct p.
  - rewrite count_occurrences_app_end by done.
    rewrite count_occurrences_app_start by done. lia.
Qed.

(** C5, amended. The font size is written in the rule of the root element,
    as the percentage [((fontSizeScale || 1) * 100).toFixed(0)]: 100 when
    the scale is 0 or NaN, else the scale times 100 rounded to an integer
    (when positive and below 10^21, the integer at most one half away). The
    fixed text of the rule of all elements declares no font size, and the
    text "font-size" occurs in the whole style sheet once more often than in
    the font family, letter spacing, word spacing and weight it
    interpolates: exactly once when these four do not contain it. *)
Theorem generateCSS_font_size (s : SiteSettings) :
  let percent :=
    toFixed0 (number_mul (number_or (fontSizeScale (styles s)) (number_of_Z 1))
                (number_of_Z 100)) in
  generateCSS s
  = (lit "
    html {
      font-size: " ++ percent ++ lit "% !important;
    }
") ++ element_rule s
  ∧ (ToBoolean (fontSizeScale (styles s)) = false → percent = lit "100")
  ∧ (∀ m e,
       number_mul (number_or (fontSizeScale (styles s)) (number_of_Z 1)) (number_of_Z 100)
         = S754_finite false m e →
       at_least_1e21 m e = false →
       ∃ n : Z, percent = decimal (Z.to_N n)
         ∧ (0 ≤ n ∧ 2 * Z.abs (n * frac_den e - frac_num m e) ≤ frac_den e)%Z)
  ∧ count_occurrences (lit "font-size") (generateCSS s) =
      (1 + count_occurrences (lit "font-size") (fontFamily s)
       + count_occurrences (lit "font-size") (letterSpacing (styles s))
       + count_occurrences (lit "font-size") (wordSpacing (styles s))
       + count_occurrences (lit "font-size") (fontWeight (styles s)))%nat
  ∧ count_occurrences (lit "font-size") (element_rule s) =
      (count_occurrences (lit "font-size") (fontFamily s)
       + count_occurrences (lit "font-size") (letterSpacing (styles s))
       + count_occurrences (lit "font-size") (wordSpacing (styles s))
       + count_occurrences (lit "font-size") (fontWeight (styles s)))%nat
  ∧ (occurs (lit "font-size") (fontFamily s) = false →
     occurs (lit "font-size") (letterSpacing (styles s)) = false →
     occurs (lit "font-size") (wordSpacing (styles s)) = false →
     occurs (lit "font-size") (fontWeight (styles s)) = false →
     count_occurrences (lit "font-size") (generateCSS s) = 1%nat
     ∧ occurs (lit "font-size") (element_rule s) = false).
Proof.
  intros percent.
  assert (Hall : count_occurrences (lit "font-size") (generateCSS s) =
      (1 + count_occurrences (lit "font-size") (fontFamily s)
       + count_occurrences (lit "font-size") (letterSpacing (styles s))
       + count_occurrences (lit "font-size") (wordSpacing (styles s))
       + count_occurrences (lit "font-size") (fontWeight (styles s)))%nat).
  { rewrite count_occurrences_generateCSS by (vm_compute; reflexivity).
    rewrite count_occurrences_fontWeightCSS by (vm_compute; reflexivity).
    unfold fontSizePercent.
    rewrite (number_text_count _ _ 111 (toFixed0_number_text _)); [|compute_done|done].
    rewrite (number_text_count _ _ 111 (Number_toString_number_text _)); [|compute_done|done].
    replace (template_count (lit "font-size")) with 1%nat by (vm_compute; reflexivity).
    lia. }
  assert (Hhtml : count_occurrences (lit "font-size") (html_rule (styles s)) = 1%nat).
  { unfold html_rule, fontSizePercent.
    rewrite count_occurrences_app_end by (vm_compute; reflexivity).
    rewrite count_occurrences_app_start by (vm_compute; reflexivity).
    rewrite (number_text_count _ _ 111 (toFixed0_number_text _)); [|compute_done|done].
    vm_compute. reflexivity. }
  assert (Hrule : count_occurrences (lit "font-size") (element_rule s) =
      (count_occurrences (lit "font-size") (fontFamily s)
       + count_occurrences (lit "font-size") (letterSpacing (styles s))
       + count_occurrences (lit "font-size") (wordSpacing (styles s))
       + count_occurrences (lit "font-size") (fontWeight (styles s)))%nat).
  { assert (Hsplit : count_occurrences (lit "font-size") (generateCSS s)
              = (count_occurrences (lit "font-size") (html_rule (styles s))
                 + count_occurrences (lit "font-size") (element_rule s))%nat).
    { unfold generateCSS. apply count_occurrences_app_start.
      unfold element_rule. by vm_compute. }
    lia. }
  split; [reflexivity|]. split; [apply fontSizePercent_fallback|]. split.
  - intros m e Hm H21. exists (round_half_up m e). subst percent. rewrite Hm.
    split; [by apply toFixed0_finite|apply round_half_up_close].
  - split; [exact Hall|]. split; [exact Hrule|].
    intros Hf Hl Hw Hfw. apply occurs_count in Hf, Hl, Hw, Hfw.
    split; [lia|]. apply occurs_count. lia.
Qed.

Lemma generateCSS_font_size_witness :
  count_occurrences (lit "font-size") (generateCSS bold_settings) = 1%nat
  ∧ occurs (lit "font-size") (element_rule bold_settings) = false
  ∧ occurs (lit "font-size: 120% !important;") (html_rule (styles bold_settings)) = true
  ∧ fontSizePercent (styles_with_scale S754_nan) = lit "100".
Proof.
  split; [|split; [|split]].
  - destruct (generateCSS_font_size bold_settings) as (_ & _ & _ & _ & _ & Honce).
    apply Honce; vm_compute; reflexivity.
  - destruct (generateCSS_font_size bold_settings) as (_ & _ & _ & _ & _ & Honce).
    apply Honce; vm_compute; reflexivity.
  - vm_compute. reflexivity.
  - destruct (generateCSS_font_size
                {| isActive := true; fontFamily := lit "Pretendard";
                   styles := styles_with_scale S754_nan |}) as (_ & Hfallback & _).
    apply Hfallback. reflexivity.
Defined.

(** ** The exclusions *)

Lemma is_prefix_app_l (p a b : jsstring) :
  is_prefix p a = true → is_prefix p (a ++ b) = true.
Proof.
  revert a. induction p as [|h p IH]; intros a H; [done|].
  destruct a as [|y a]; [done|]. simpl in *.
  apply andb_true_iff in H as [-> H]. simpl. by apply IH.
Qed.

Lemma occurs_unfold (p s : jsstring) :
  occurs p s = is_prefix p s || match s with [] => false | _ :: s' => occurs p s' end.
Proof. by destruct s. Qed.

Lemma occurs_app_l (p a b : jsstring) : occurs p a = true → occurs p (a ++ b) = true.
Proof.
  induction a as [|c a IH]; intros H.
  - simpl in H. rewrite orb_false_r in H.
    rewrite occurs_unfold. by rewrite (is_prefix_app_l p [] b H).
  - rewrite occurs_unfold in H. apply orb_true_iff in H as [H|H].
    + rewrite occurs_unfold. by rewrite (is_prefix_app_l p (c :: a) b H).
    + rewrite occurs_unfold. simpl. rewrite (IH H). apply orb_true_r.
Qed.

Lemma occurs_clause (e : jsstring) (l : list jsstring) :
  e ∈ l → occurs (not_clause e) (concat (map not_clause l)) = true.
Proof.
  induction 1 as [e l|e e' l Hin IH].
  - change (concat (map not_clause (e :: l)))
      with (not_clause e ++ concat (map not_clause l)).
    apply occurs_here.
  - change (concat (map not_clause (e' :: l)))
      with (not_clause e' ++ concat (map not_clause l)).
    by apply occurs_app_r.
Qed.

(** C6 as stated fails: the selector has no clause for the class-name
    substring mono, and an element whose class name contains mono, such as
    "font-mono", is among those the rule of all elements selects. *)
Lemma class_substring_mono_not_excluded :
  class_contains "mono" ∈ specified_exclusions
  ∧ (class_contains "mono" ∉ iconExclusions)
  ∧ occurs (not_clause (class_contains "mono")) element_rule_selector = false
  ∧ occurs (not_clause (class_contains "mono")) (generateCSS example_settings) = false
  ∧ rule_selects {| local_name := lit "div";
                    class_attribute := Some (lit "font-mono text-sm truncate");
                    ancestors := [lit "body"; lit "html"] |} = true.
Proof.
  split; [compute_done|]. split; [compute_done|]. repeat split; by vm_compute.
Qed.

Lemma html_rule_without (p : jsstring) (st : SiteStyles) (c : N) :
  ends_outside p template_0 = true →
  starts_outside p (lit "% !important;
    }
") = true →
  count_occurrences p template_0 = 0%nat →
  count_occurrences p (lit "% !important;
    }
") = 0%nat →
  c ∈ p → number_char c = false →
  occurs p (html_rule st) = false.
Proof.
  intros He Hs H0 H1 Hc Hn. apply occurs_count. unfold html_rule, fontSizePercent.
  fold template_0.
  rewrite count_occurrences_app_end by done.
  rewrite count_occurrences_app_start by done.
  rewrite (number_text_count _ _ c (toFixed0_number_text _)) by done. lia.
Qed.

(** C6, amended. The rule that carries font-family, line-height,
    letter-spacing and word-spacing (the rule of the root element has none
    of them) has the selector [*] followed by one [:not()] clause per entry
    of the exclusion list, and nothing else. Among those clauses are the ones
    for the class-name substrings icon, Icon, fa-, material-icons, glyphicon,
    emoji and monospace, for svg and [svg *], for code, pre and kbd, and for
    the class [mono] (the class itself, not every class name containing
    mono). *)
Theorem element_rule_exclusions (s : SiteSettings) :
  generateCSS s
  = html_rule (styles s)
    ++ lit "    " ++ element_rule_selector ++ lit " {" ++ element_rule_body s ++ lit "}
  "
  ∧ Forall (λ p, occurs p (html_rule (styles s)) = false
                 ∧ occurs (p ++ lit ": ") (element_rule_body s) = true)
      overridden_properties
  ∧ element_rule_selector = lit "*" ++ concat (map not_clause iconExclusions)
  ∧ Forall (λ e, e ∈ iconExclusions
                 ∧ occurs (not_clause e) element_rule_selector = true
                 ∧ occurs (not_clause e) (generateCSS s) = true)
      rendered_exclusions.
Proof.
  assert (Hcss : generateCSS s
    = html_rule (styles s)
      ++ lit "    " ++ element_rule_selector ++ lit " {" ++ element_rule_body s ++ lit "}
  ").
  { unfold generateCSS, element_rule, element_rule_body.
    rewrite <- !app_assoc. reflexivity. }
  split; [exact Hcss|]. split; [|split; [reflexivity|]].
  - unfold overridden_properties, element_rule_body.
    repeat (apply Forall_cons; split); [..|apply Forall_nil_2]; split;
      try (by apply (html_rule_without _ _ 111); [vm_compute..|compute_done|]);
      try (by apply (html_rule_without _ _ 108); [vm_compute..|compute_done|]).
    + by apply occurs_app_l; vm_compute.
    + do 4 apply occurs_app_r. by apply occurs_app_l; vm_compute.
    + do 6 apply occurs_app_r. by apply occurs_app_l; vm_compute.
    + do 8 apply occurs_app_r. by apply occurs_app_l; vm_compute.
  - apply Forall_forall. intros e He.
    assert (Hin : e ∈ iconExclusions).
    { revert e He. apply Forall_forall. unfold rendered_exclusions.
      repeat (apply Forall_cons; split; [compute_done|]). apply Forall_nil_2. }
    assert (Hsel : occurs (not_clause e) element_rule_selector = true).
    { unfold element_rule_selector, notSelectors.
      apply (occurs_app_r _ (lit "*")). by apply (occurs_clause e iconExclusions). }
    split; [done|]. split; [done|].
    rewrite Hcss. apply occurs_app_r, occurs_app_r. by apply occurs_app_l.
Qed.

(** ** Determinism *)

Lemma same_number_cases (x y : number) :
  same_number x y = true → x = y ∨ (∃ a b, x = S754_zero a ∧ y = S754_zero b).
Proof.
  destruct x as [a|a| |a m e], y as [b|b| |b m' e']; simpl; try done.
  - intros _. right. eauto.
  - intros ->%Bool.eqb_prop. by left.
  - by left.
  - rewrite !andb_true_iff. intros [[->%Bool.eqb_prop ->%Pos.eqb_eq] ->%Z.eqb_eq]. by left.
Qed.

Lemma same_number_toString (x y : number) :
  same_number x y = true → Number_toString x = Number_toString y.
Proof. intros [->|(a & b & -> & ->)]%same_number_cases; done. Qed.

Lemma same_number_or (x y d : number) :
  same_number x y = true → number_or x d = number_or y d.
Proof. intros [->|(a & b & -> & ->)]%same_number_cases; done. Qed.

(** C7. [generateCSS] is a function of its argument alone, and settings that
    are deep-equal (field by field, [NaN] equal to [NaN] and [+0] to [-0])
    render to the same sequence of code units. *)
Theorem generateCSS_deterministic (s1 s2 : SiteSettings) :
  deep_equal s1 s2 = true → generateCSS s1 = generateCSS s2.
Proof.
  unfold deep_equal, deep_equal_styles. rewrite !andb_true_iff.
  intros [[_ Hf%bool_decide_eq_true] [[[[Hlh Hls%bool_decide_eq_true]
    Hws%bool_decide_eq_true] Hfw%bool_decide_eq_true] Hsc]].
  unfold generateCSS, html_rule, element_rule, fontSizePercent, fontWeightCSS.
  rewrite Hf, Hls, Hws, Hfw.
  by rewrite (same_number_toString _ _ Hlh), (same_number_or _ _ _ Hsc).
Qed.

Lemma generateCSS_deterministic_witness :
  generateCSS (settings_with_zeros false) = generateCSS (settings_with_zeros true).
Proof.
  apply (generateCSS_deterministic (settings_with_zeros false) (settings_with_zeros true)).
  vm_compute. reflexivity.
Defined.

(** ** Which elements the rule of all elements selects *)

Lemma parsed_exclusions_text : map exclusion_text parsed_exclusions = iconExclusions.
Proof. reflexivity. Qed.

Lemma rule_selects_excluded (x : exclusion) (el : subject) :
  x ∈ parsed_exclusions → excludes x el = true → rule_selects el = false.
Proof.
  intros Hx He. unfold rule_selects.
  destruct (forallb _ _) eqn:E; [|done].
  rewrite forallb_forall in E. apply list_elem_of_In in Hx.
  specialize (E x Hx). by rewrite He in E.
Qed.

(** The rule leaves alone every element whose class attribute contains
    "icon", every svg element and every element inside one. *)
Lemma rule_skips_icons_and_svg (el : subject) :
  (∀ a, class_attribute el = Some a → occurs (lit "icon") a = true →
        rule_selects el = false)
  ∧ (local_name el = lit "svg" → rule_selects el = false)
  ∧ (lit "svg" ∈ ancestors el → rule_selects el = false).
Proof.
  split; [|split].
  - intros a Ha Hicon. apply (rule_selects_excluded (by_class_substring "icon"));
      [unfold parsed_exclusions; in_list|]. simpl. by rewrite Ha.
  - intros Hsvg. apply (rule_selects_excluded (by_type "svg"));
      [unfold parsed_exclusions; in_list|].
    simpl. by apply bool_decide_eq_true_2.
  - intros Hsvg. apply (rule_selects_excluded (by_ancestor "svg"));
      [unfold parsed_exclusions; in_list|].
    simpl. by apply bool_decide_eq_true_2.
Qed.

(** It selects an element whose class is "mono-ish", and leaves alone one
    whose class list has the class mono. *)
Lemma rule_selects_class_mono :
  rule_selects {| local_name := lit "span";
                  class_attribute := Some (lit "mono-ish");
                  ancestors := [lit "body"; lit "html"] |} = true
  ∧ rule_selects {| local_name := lit "span";
                    class_attribute := Some (lit "tiny mono");
                    ancestors := [lit "body"; lit "html"] |} = false.
Proof. vm_compute. done. Qed.

(** ** Domain extraction *)

Section DomainExtraction.

Context `{URLParser}.

(** C9. [extractDomain] yields the hostname of a URL that parses and whose
    scheme is none of [chrome:], [edge:], [about:] and [chrome-extension:];
    it yields the absent value, and raises nothing, for a URL with one of
    these schemes and for a string the parser rejects. *)
Theorem extractDomain_spec (url : jsstring) :
  (∀ u, new_URL url = Some u → URL.protocol u ∉ rejected_protocols →
        extractDomain url = Some (URL.hostname u))
  ∧ (∀ u, new_URL url = Some u → URL.protocol u ∈ rejected_protocols →
          extractDomain url = None)
  ∧ (new_URL url = None → extractDomain url = None).
Proof.
  unfold extractDomain, rejected_protocols. split; [|split].
  - intros u -> Hp. rewrite !not_elem_of_cons in Hp.
    destruct Hp as (H1 & H2 & H3 & H4 & _).
    by rewrite !bool_decide_eq_false_2.
  - intros u -> Hp. rewrite !elem_of_cons, elem_of_nil in Hp.
    destruct Hp as [->|[->|[->|[->|[]]]]]; reflexivity.
  - by intros ->.
Qed.

End DomainExtraction.

Lemma extractDomain_spec_witness :
  @extractDomain sample_parser (lit "https://example.com/fonts?x=1") = Some (lit "example.com")
  ∧ @extractDomain sample_parser (lit "chrome://extensions/") = None
  ∧ @extractDomain sample_parser (lit "about:blank") = None
  ∧ @extractDomain sample_parser (lit "not a url") = None.
Proof.
  split; [|split; [|split]].
  - apply (proj1 (@extractDomain_spec sample_parser (lit "https://example.com/fonts?x=1"))
             {| URL.protocol := lit "https:"; URL.hostname := lit "example.com" |}).
    + reflexivity.
    + compute_done.
  - apply (proj1 (proj2 (@extractDomain_spec sample_parser (lit "chrome://extensions/")))
             {| URL.protocol := lit "chrome:"; URL.hostname := lit "extensions" |}).
    + reflexivity.
    + compute_done.
  - apply (proj1 (proj2 (@extractDomain_spec sample_parser (lit "about:blank")))
             {| URL.protocol := lit "about:"; URL.hostname := [] |}).
    + reflexivity.
    + compute_done.
  - apply (@extractDomain_spec sample_parser (lit "not a url")). reflexivity.
Defined.

(** ** The page applier *)

Lemma injectStyles_page (s : SiteSettings) (w : browser) :
  page (injectStyles s w).2
  = appendChild_to_target (styleElement s) (page (removeStyles w).2).
Proof. unfold injectStyles, bind. by destruct (removeStyles w). Qed.

Lemma appendChild_to_target_elem (el : element) (d : document) :
  el ∈ default [] (head (appendChild_to_target el d))
       ++ documentElement (appendChild_to_target el d).
Proof.
  unfold appendChild_to_target. destruct (head d) as [h|]; simpl.
  - rewrite !elem_of_app. left. right. by apply list_elem_of_singleton.
  - rewrite elem_of_app. right. by apply list_elem_of_singleton.
Qed.

Lemma loadAndApplySettings_eq (w : browser) :
  loadAndApplySettings w =
    match is_active_settings (stored_site w) with
    | Some s => injectStyles s w
    | None => removeStyles w
    end.
Proof.
  unfold loadAndApplySettings, stored_site, stored, getStorage, bind, ret,
    getCurrentDomain, chrome_storage_sync_get. simpl.
  by destruct (is_active_settings _).
Qed.



(** * Further properties of the store *)

(** ** What each mutator leaves in the stored document *)

Lemma removeFavoriteFont_stored fontName w :
  stored (removeFavoriteFont fontName w).2 =
  {| favoriteFonts := filter (λ f, f ≠ fontName) (favoriteFonts (stored w));
     siteSettings := siteSettings (stored w);
     presets := presets (stored w) |}.
Proof.
  run_async. by destruct (sync w) as [[?|] [?|] [?|]].
Qed.

Lemma removeSite_stored domain w :
  stored (removeSite domain w).2 =
  {| favoriteFonts := favoriteFonts (stored w);
     siteSettings := delete domain (siteSettings (stored w));
     presets := presets (stored w) |}.
Proof.
  run_async. by destruct (sync w) as [[?|] [?|] [?|]].
Qed.

Lemma setSiteSettings_stored_all domain cfg w :
  stored (setSiteSettings domain cfg w).2 =
  {| favoriteFonts := favoriteFonts (stored w);
     siteSettings := set_property (siteSettings (stored w)) domain cfg;
     presets := presets (stored w) |}.
Proof.
  run_async. by destruct (sync w) as [[?|] [?|] [?|]].
Qed.

Lemma removePreset_stored presetId w :
  stored (removePreset presetId w).2 =
  {| favoriteFonts := favoriteFonts (stored w);
     siteSettings := siteSettings (stored w);
     presets := filter (λ p, StylePreset.id p ≠ presetId) (presets (stored w)) |}.
Proof.
  run_async. by destruct (sync w) as [[?|] [?|] [?|]].
Qed.

Lemma addPreset_stored name fontFamily styles w :
  stored (addPreset name fontFamily styles w).2 =
  {| favoriteFonts := favoriteFonts (stored w);
     siteSettings := siteSettings (stored w);
     presets := presets (stored w) ++ [(addPreset name fontFamily styles w).1] |}.
Proof.
  run_async. by destruct (sync w) as [[?|] [?|] [?|]].
Qed.

Lemma updatePreset_stored presetId name fontFamily styles w :
  favoriteFonts (stored (updatePreset presetId name fontFamily styles w).2)
    = favoriteFonts (stored w)
  ∧ siteSettings (stored (updatePreset presetId name fontFamily styles w).2)
    = siteSettings (stored w)
  ∧ presets (stored (updatePreset presetId name fontFamily styles w).2)
    = match list_find (λ p, StylePreset.id p = presetId) (presets (stored w)) with
      | Some (index, old) =>
          <[index := {| StylePreset.id := StylePreset.id old;
                        StylePreset.name := trim name;
                        StylePreset.fontFamily := fontFamily;
                        StylePreset.styles := spread_styles styles |}]>
            (presets (stored w))
      | None => presets (stored w)
      end.
Proof.
  run_async.
  destruct (list_find _ _) as [[index old]|]; simpl;
    by destruct (sync w) as [[?|] [?|] [?|]].
Qed.

Lemma addFavoriteFont_stored fontName w :
  siteSettings (stored (addFavoriteFont fontName w).2) = siteSettings (stored w)
  ∧ presets (stored (addFavoriteFont fontName w).2) = presets (stored w)
  ∧ favoriteFonts (stored (addFavoriteFont fontName w).2)
    = if (addFavoriteFont fontName w).1
      then favoriteFonts (stored w) ++ [trim fontName]
      else favoriteFonts (stored w).
Proof.
  destruct (decide (trim fontName = [] ∨ trim fontName ∈ favoriteFonts (stored w)))
    as [Hr|Ha].
  - by rewrite (addFavoriteFont_rejected _ _ Hr).
  - rewrite addFavoriteFont_accepted by tauto.
    cbn [fst snd]. rewrite stored_with_sync. simpl.
    run_async. by destruct (sync w) as [[?|] [?|] [?|]].
Qed.

(** ** [trim] yields trimmed names *)

Lemma trimStart_fixed (s : jsstring) :
  (∀ c s', s = c :: s' → is_white_space c = false) → trimStart s = s.
Proof.
  destruct s as [|c s']; [done|]. intros H. simpl.
  by rewrite (H c s' eq_refl).
Qed.

Lemma trim_idem (s : jsstring) : trim (trim s) = trim s.
Proof.
  destruct (trim_spec s) as (_ & Hfirst & Hlast).
  unfold trim at 1. rewrite (trimStart_fixed (trim s)) by done.
  unfold trimEnd. rewrite trimStart_fixed; [by rewrite rev_involutive|].
  intros c s' Hrev. apply (Hlast c (rev s')).
  by rewrite <- (rev_involutive (trim s)), Hrev.
Qed.

(** ** The list of favourite fonts *)

(** X1. [removeFavoriteFont] removes every entry equal to the name and
    nothing else: the name is gone, the other fonts stay, in their order,
    and the site settings and presets that name the font are left as they
    are. *)
Theorem removeFavoriteFont_spec (fontName : jsstring) (w : browser) :
  let before := stored w in
  let after := stored (removeFavoriteFont fontName w).2 in
  (fontName ∉ favoriteFonts after)
  ∧ (∀ f, f ≠ fontName → occurrences f (favoriteFonts after)
                         = occurrences f (favoriteFonts before))
  ∧ sublist (favoriteFonts after) (favoriteFonts before)
  ∧ siteSettings after = siteSettings before
  ∧ presets after = presets before
  ∧ page (removeFavoriteFont fontName w).2 = page w.
Proof.
  cbn zeta. rewrite removeFavoriteFont_stored. cbn [favoriteFonts siteSettings presets].
  repeat split.
  - rewrite list_elem_of_filter. tauto.
  - intros f Hf. unfold occurrences. f_equal.
    induction (favoriteFonts (stored w)) as [|g l IH]; [done|].
    rewrite !filter_cons. destruct (decide (g ≠ fontName)) as [Hg|Hg].
    + rewrite filter_cons. destruct (decide (g = f)); by rewrite IH.
    + destruct (decide (g = f)) as [->|]; [|done].
      exfalso. apply Hg. done.
  - apply sublist_filter.
Qed.

(** X2. Removing a font that [addFavoriteFont] has just accepted (by its
    trimmed name) gives back the font list from before the addition. *)
Theorem addFavoriteFont_removeFavoriteFont (fontName : jsstring) (w : browser) :
  (addFavoriteFont fontName w).1 = true →
  favoriteFonts
    (stored (removeFavoriteFont (trim fontName) (addFavoriteFont fontName w).2).2)
  = favoriteFonts (stored w).
Proof.
  intros Hacc.
  rewrite removeFavoriteFont_stored. cbn [favoriteFonts].
  destruct (addFavoriteFont_stored fontName w) as (_ & _ & ->). rewrite Hacc.
  assert (Hnew : trim fontName ∉ favoriteFonts (stored w)).
  { intros Hin.
    rewrite (addFavoriteFont_rejected fontName w) in Hacc by (by right). done. }
  rewrite filter_app, filter_cons, filter_nil.
  destruct (decide (trim fontName ≠ trim fontName)) as [Hne|_]; [done|].
  rewrite app_nil_r.
  induction (favoriteFonts (stored w)) as [|g l IH]; [done|].
  rewrite filter_cons. rewrite not_elem_of_cons in Hnew. destruct Hnew as [Hg Hl].
  destruct (decide (g ≠ trim fontName)) as [_|Hn]; [by rewrite IH | by destruct Hn].
Qed.

Lemma addFavoriteFont_removeFavoriteFont_witness :
  favoriteFonts
    (stored (removeFavoriteFont (trim (lit " Pretendard "))
               (addFavoriteFont (lit " Pretendard ") fresh_browser).2).2)
  = favoriteFonts (stored fresh_browser).
Proof.
  apply (addFavoriteFont_removeFavoriteFont (lit " Pretendard ") fresh_browser).
  vm_compute. reflexivity.
Defined.

Lemma run_call_fonts_invariant (c : store_call) (w : browser) :
  fonts_invariant w → fonts_invariant (run_call c w).
Proof.
  unfold fonts_invariant. intros [Hnd Hall].
  destruct c as [fontName|fontName|domain cfg|domain|name font st|presetId
                |presetId name font st]; cbn [run_call].
  - split; [by apply addFavoriteFont_NoDup|].
    destruct (addFavoriteFont_stored fontName w) as (_ & _ & ->).
    destruct (addFavoriteFont fontName w).1 eqn:Hacc; [|done].
    rewrite Forall_app, Forall_singleton. split; [done|].
    split; [|apply trim_idem].
    intros Hempty.
    rewrite (addFavoriteFont_rejected fontName w) in Hacc by (by left). done.
  - rewrite removeFavoriteFont_stored. cbn [favoriteFonts].
    split; [by apply NoDup_filter|].
    rewrite Forall_forall in *. intros f Hf.
    apply Hall. by apply list_elem_of_filter in Hf as [_ Hf].
  - by rewrite setSiteSettings_stored_all.
  - by rewrite removeSite_stored.
  - by rewrite addPreset_stored.
  - by rewrite removePreset_stored.
  - by destruct (updatePreset_stored presetId name font st w) as (-> & _).
Qed.

(** X3. The font list keeps its invariant under every sequence of calls
    of the store's mutators: no name is listed twice, and every name is
    non-empty and free of white space at both ends. *)
Theorem fonts_invariant_preserved (cs : list store_call) (w : browser) :
  fonts_invariant w → fonts_invariant (run_calls cs w).
Proof.
  revert w. induction cs as [|c cs IH]; intros w Hw; [done|].
  apply IH. by apply run_call_fonts_invariant.
Qed.

Lemma fonts_invariant_preserved_witness :
  fonts_invariant
    (run_calls [call_addFavoriteFont (lit " Pretendard ");
                call_addFavoriteFont (lit "Pretendard");
                call_removeFavoriteFont (lit "Arial");
                call_addFavoriteFont (lit "  ")] fresh_browser).
Proof.
  apply (fonts_invariant_preserved _ fresh_browser).
  split; [apply NoDup_nil_2 | apply Forall_nil_2].
Defined.

(** ** Site settings *)

(** X4. For every domain but [__proto__], [setSiteSettings] is an upsert:
    the domain then reads as the settings written, every other domain
    reads as before, and fonts, presets and page are untouched. *)
Theorem setSiteSettings_upsert (domain : jsstring) (cfg : SiteSettings) (w : browser) :
  domain ≠ lit "__proto__" →
  let w' := (setSiteSettings domain cfg w).2 in
  (getSiteSettings domain w').1 = Some (own_settings cfg)
  ∧ (∀ other, other ≠ domain →
       (getSiteSettings other w').1 = (getSiteSettings other w).1)
  ∧ favoriteFonts (stored w') = favoriteFonts (stored w)
  ∧ presets (stored w') = presets (stored w)
  ∧ page w' = page w.
Proof.
  intros Hd. cbn zeta. repeat split.
  - apply setSiteSettings_getSiteSettings. by left.
  - intros other Ho. by apply setSiteSettings_other.
Qed.

Lemma setSiteSettings_upsert_witness :
  (getSiteSettings (lit "example.com")
     (setSiteSettings (lit "example.com") example_settings fresh_browser).2).1
  = Some (own_settings example_settings).
Proof.
  apply (setSiteSettings_upsert (lit "example.com") example_settings fresh_browser).
  vm_compute. discriminate.
Defined.

(** X5. After [removeSite] the domain has no settings of its own: a read
    yields [null], or for the name of an [Object.prototype] member that
    member. Every other domain reads as before, and fonts and presets are
    untouched. *)
Theorem removeSite_spec (domain : jsstring) (w : browser) :
  let w' := (removeSite domain w).2 in
  (getSiteSettings domain w').1
    = (if bool_decide (domain ∈ Object_prototype_keys)
       then Some (prototype_member domain) else None)
  ∧ (∀ other, other ≠ domain →
       (getSiteSettings other w').1 = (getSiteSettings other w).1)
  ∧ favoriteFonts (stored w') = favoriteFonts (stored w)
  ∧ presets (stored w') = presets (stored w)
  ∧ page w' = page w.
Proof.
  cbn zeta.
  assert (Hget : ∀ d v, (getSiteSettings d v).1 = get_property (siteSettings (stored v)) d)
    by done.
  rewrite !Hget, removeSite_stored. cbn [favoriteFonts siteSettings presets].
  repeat split.
  - unfold get_property. by rewrite lookup_delete_eq.
  - intros other Ho. rewrite !Hget, removeSite_stored. cbn [siteSettings].
    unfold get_property. by rewrite lookup_delete_ne.
Qed.

(** X6. Registering a domain that had no settings and removing it again
    gives back the stored site settings. *)
Theorem setSiteSettings_removeSite (domain : jsstring) (cfg : SiteSettings) (w : browser) :
  siteSettings (stored w) !! domain = None →
  siteSettings (stored (removeSite domain (setSiteSettings domain cfg w).2).2)
  = siteSettings (stored w).
Proof.
  intros Hnone.
  rewrite removeSite_stored, setSiteSettings_stored_all. cbn [siteSettings].
  unfold set_property. destruct (_ && _).
  - by apply delete_id.
  - by apply delete_insert_id.
Qed.

Lemma setSiteSettings_removeSite_witness :
  siteSettings
    (stored (removeSite (lit "example.com")
               (setSiteSettings (lit "example.com") example_settings fresh_browser).2).2)
  = siteSettings (stored fresh_browser).
Proof.
  apply (setSiteSettings_removeSite (lit "example.com") example_settings fresh_browser).
  reflexivity.
Defined.

(** ** Presets *)

(** X7. [removePreset] removes every preset of the id, also when several
    share it, and nothing else: the other presets stay, in their order, and
    fonts and site settings are untouched. *)
Theorem removePreset_spec (presetId : jsstring) (w : browser) :
  let before := stored w in
  let after := stored (removePreset presetId w).2 in
  Forall (λ p, StylePreset.id p ≠ presetId) (presets after)
  ∧ (∀ p, StylePreset.id p ≠ presetId → p ∈ presets after ↔ p ∈ presets before)
  ∧ sublist (presets after) (presets before)
  ∧ favoriteFonts after = favoriteFonts before
  ∧ siteSettings after = siteSettings before.
Proof.
  cbn zeta. rewrite removePreset_stored. cbn [favoriteFonts siteSettings presets].
  repeat split.
  - rewrite Forall_forall. intros p Hp. by apply list_elem_of_filter in Hp as [Hp _].
  - intros Hp. by apply list_elem_of_filter in Hp as [_ Hp].
  - intros Hp. by apply list_elem_of_filter.
  - apply sublist_filter.
Qed.

(** X8. When the id [addPreset] generated is the id of no stored preset,
    removing the new preset by its id gives back the presets from before. *)
Theorem addPreset_removePreset (name fontFamily : jsstring) (styles : SiteStyles)
    (w : browser) :
  let added := addPreset name fontFamily styles w in
  Forall (λ p, StylePreset.id p ≠ StylePreset.id added.1) (presets (stored w)) →
  presets (stored (removePreset (StylePreset.id added.1) added.2).2)
  = presets (stored w).
Proof.
  cbn zeta. intros Hfresh.
  rewrite removePreset_stored, addPreset_stored. cbn [presets].
  rewrite filter_app, filter_cons, filter_nil.
  destruct (decide (_ ≠ _)) as [Hne|_]; [done|].
  rewrite app_nil_r.
  induction Hfresh as [|p l Hp Hl IH]; [done|].
  rewrite filter_cons. destruct (decide (_ ≠ _)) as [_|Hn]; [by rewrite IH | by destruct Hn].
Qed.

Lemma addPreset_removePreset_witness :
  presets
    (stored (removePreset
               (StylePreset.id (addPreset (lit "Reading") (lit "Pretendard")
                                  DEFAULT_SITE_STYLES fresh_browser).1)
               (addPreset (lit "Reading") (lit "Pretendard")
                  DEFAULT_SITE_STYLES fresh_browser).2).2)
  = presets (stored fresh_browser).
Proof.
  apply (addPreset_removePreset (lit "Reading") (lit "Pretendard")
           DEFAULT_SITE_STYLES fresh_browser).
  apply Forall_nil_2.
Defined.

Lemma list_find_insert_same {A} (P : A → Prop) `{∀ x, Decision (P x)}
    (l : list A) (i : nat) (x y : A) :
  list_find P l = Some (i, x) → P y → list_find P (<[i := y]> l) = Some (i, y).
Proof.
  intros Hfind Hy. apply list_find_Some in Hfind as (Hi & Hx & Hbefore).
  apply list_find_Some. split; [|split; [done|]].
  - apply list_lookup_insert_eq. by eapply lookup_lt_Some.
  - intros j z Hj Hlt. rewrite list_lookup_insert_ne in Hj by lia.
    by eapply Hbefore.
Qed.

(** X9. [updatePreset] never changes which presets there are: the ids
    stored, in their order, are the same after the call, whatever its
    arguments, and fonts and site settings are untouched. *)
Theorem updatePreset_keeps_ids (presetId name fontFamily : jsstring)
    (styles : SiteStyles) (w : browser) :
  let after := stored (updatePreset presetId name fontFamily styles w).2 in
  map StylePreset.id (presets after) = map StylePreset.id (presets (stored w))
  ∧ favoriteFonts after = favoriteFonts (stored w)
  ∧ siteSettings after = siteSettings (stored w).
Proof.
  cbn zeta.
  destruct (updatePreset_stored presetId name fontFamily styles w) as (-> & -> & ->).
  split; [|done].
  destruct (list_find _ _) as [[index old]|] eqn:Hfind; [|done].
  apply list_find_Some in Hfind as (Hi & _ & _).
  rewrite list_fmap_insert. cbn [StylePreset.id].
  apply list_insert_id. by rewrite list_lookup_fmap, Hi.
Qed.

(** X10. [updatePreset] is idempotent: a second call with the same
    arguments changes nothing. *)
Theorem updatePreset_idempotent (presetId name fontFamily : jsstring)
    (styles : SiteStyles) (w : browser) :
  let w' := (updatePreset presetId name fontFamily styles w).2 in
  stored (updatePreset presetId name fontFamily styles w').2 = stored w'.
Proof.
  cbn zeta.
  set (w' := (updatePreset presetId name fontFamily styles w).2).
  destruct (updatePreset_stored presetId name fontFamily styles w') as (Hf & Hs & Hp).
  destruct (updatePreset_stored presetId name fontFamily styles w) as (_ & _ & Hp0).
  fold w' in Hp0.
  assert (Hsame : presets (stored (updatePreset presetId name fontFamily styles w').2)
                  = presets (stored w')).
  { rewrite Hp. destruct (list_find _ (presets (stored w))) as [[index old]|] eqn:Hfind.
    - rewrite Hp0.
      pose proof (proj1 (list_find_Some _ _ _ _) Hfind) as (_ & Hold & _).
      erewrite list_find_insert_same; [|exact Hfind|exact Hold].
      cbn [StylePreset.id]. by rewrite list_insert_insert_eq.
    - rewrite Hp0, Hfind. done. }
  destruct (stored (updatePreset presetId name fontFamily styles w').2),
           (stored w'); simpl in *; congruence.
Qed.

(** * Further properties of the content script *)

Lemma filter_remove_first_id (i : jsstring) (l : list element) :
  filter (λ el, element_id el = i) (remove_first i l)
  = tail (filter (λ el, element_id el = i) l).
Proof.
  induction l as [|el l IH]; [done|]. simpl.
  rewrite filter_cons. case_bool_decide as Hid.
  - by rewrite decide_True.
  - rewrite decide_False by done. rewrite filter_cons, decide_False by done. done.
Qed.

Lemma filter_remove_first_other (i : jsstring) (l : list element) :
  filter (λ el, element_id el ≠ i) (remove_first i l)
  = filter (λ el, element_id el ≠ i) l.
Proof.
  induction l as [|el l IH]; [done|]. simpl.
  rewrite filter_cons. case_bool_decide as Hid.
  - rewrite decide_False; [done|]. by intros Hne.
  - rewrite decide_True by done. rewrite filter_cons, decide_True by done.
    by rewrite IH.
Qed.

Lemma filter_id_nil (i : jsstring) (l : list element) :
  ¬ Exists (λ el, element_id el = i) l → filter (λ el, element_id el = i) l = [].
Proof.
  intros Hno. induction l as [|el l IH]; [done|].
  rewrite filter_cons, decide_False.
  - apply IH. intros Hex. apply Hno. by right.
  - intros Hid. apply Hno. by left.
Qed.

Lemma filter_id_cons (i : jsstring) (l : list element) :
  Exists (λ el, element_id el = i) l →
  ∃ el rest, filter (λ el, element_id el = i) l = el :: rest.
Proof.
  induction 1 as [el l Hid|el l _ IH].
  - exists el, (filter (λ el, element_id el = i) l). by rewrite filter_cons, decide_True.
  - rewrite filter_cons. destruct (decide _); eauto.
Qed.

Lemma remove_by_id_injected (d : document) :
  injected_styles (remove_by_id STYLE_ID d) = tail (injected_styles d).
Proof.
  unfold injected_styles, elements, remove_by_id.
  destruct (head d) as [h|]; simpl.
  - case_bool_decide as Hex; simpl.
    + rewrite !filter_app, filter_remove_first_id.
      destruct (filter_id_cons _ _ Hex) as (el & rest & ->). done.
    + rewrite !filter_app, filter_remove_first_id.
      by rewrite (filter_id_nil _ _ Hex).
  - apply filter_remove_first_id.
Qed.

Lemma remove_by_id_other (d : document) :
  other_elements (remove_by_id STYLE_ID d) = other_elements d.
Proof.
  unfold other_elements, elements, remove_by_id.
  destruct (head d) as [h|]; simpl.
  - case_bool_decide as Hex; simpl;
      by rewrite !filter_app, filter_remove_first_other.
  - apply filter_remove_first_other.
Qed.

Lemma getElementById_None (d : document) :
  getElementById STYLE_ID d = None → injected_styles d = [].
Proof.
  unfold getElementById, injected_styles, elements. intros Hnone.
  apply fmap_None in Hnone.
  apply filter_id_nil. rewrite Exists_exists. intros (el & Hin & Hid).
  assert (Hall := proj1 (list_find_None _ _) Hnone).
  rewrite Forall_forall in Hall. by apply (Hall el).
Qed.

Lemma removeStyles_injected (w : browser) :
  injected_styles (page (removeStyles w).2) = tail (injected_styles (page w)).
Proof.
  unfold removeStyles.
  destruct (getElementById STYLE_ID (page w)) eqn:Hget; simpl.
  - apply remove_by_id_injected.
  - by rewrite (getElementById_None _ Hget).
Qed.

Lemma removeStyles_other (w : browser) :
  other_elements (page (removeStyles w).2) = other_elements (page w).
Proof.
  unfold removeStyles.
  destruct (getElementById STYLE_ID (page w)); simpl; [|done].
  apply remove_by_id_other.
Qed.

Lemma appendChild_injected (el : element) (d : document) :
  element_id el = STYLE_ID →
  injected_styles (appendChild_to_target el d) ≡ₚ el :: injected_styles d.
Proof.
  intros Hid. unfold injected_styles, elements, appendChild_to_target.
  destruct (head d) as [h|]; simpl.
  - rewrite !filter_app, filter_cons, decide_True, filter_nil by done.
    rewrite <- app_assoc. simpl. by rewrite <- Permutation_middle.
  - rewrite filter_app, filter_cons, decide_True, filter_nil by done.
    by rewrite <- Permutation_cons_append.
Qed.

Lemma appendChild_other (el : element) (d : document) :
  element_id el = STYLE_ID →
  other_elements (appendChild_to_target el d) = other_elements d.
Proof.
  intros Hid. unfold other_elements, elements, appendChild_to_target.
  destruct (head d) as [h|]; simpl.
  - rewrite !filter_app, filter_cons, decide_False, filter_nil by (by intros Hne).
    by rewrite app_nil_r.
  - rewrite filter_app, filter_cons, decide_False, filter_nil by (by intros Hne).
    by rewrite app_nil_r.
Qed.

Lemma removeStyles_clean (w : browser) :
  style_count (page w) = 0%nat → (removeStyles w).2 = w.
Proof.
  unfold style_count, removeStyles. intros Hzero.
  destruct (getElementById STYLE_ID (page w)) as [el|] eqn:Hget; [|done].
  exfalso. unfold getElementById in Hget.
  apply fmap_Some in Hget as ([i el'] & Hfind & _).
  apply list_find_Some in Hfind as (Hi & Hid & _).
  apply length_zero_iff_nil in Hzero.
  assert (Hin : el' ∈ injected_styles (page w)).
  { apply list_elem_of_filter. split; [done|]. by eapply list_elem_of_lookup_2. }
  rewrite Hzero in Hin. by apply not_elem_of_nil in Hin.
Qed.

Lemma injectStyles_injected (s : SiteSettings) (w : browser) :
  injected_styles (page (injectStyles s w).2)
  ≡ₚ styleElement s :: tail (injected_styles (page w)).
Proof.
  rewrite injectStyles_page, appendChild_injected by done.
  by rewrite removeStyles_injected.
Qed.

Lemma injectStyles_single (s : SiteSettings) (w : browser) :
  (style_count (page w) ≤ 1)%nat →
  injected_styles (page (injectStyles s w).2) = [styleElement s].
Proof.
  intros Hle. pose proof (injectStyles_injected s w) as Hperm.
  unfold style_count in Hle.
  destruct (injected_styles (page w)) as [|e [|e' l]]; simpl in *; [| |lia];
    by apply Permutation_singleton_r in Hperm.
Qed.

(** X11. [removeStyles] removes the first element with the id of the
    injected style, if there is one, and nothing else; on a page without
    one it changes nothing. *)
Theorem removeStyles_spec (w : browser) :
  let w' := (removeStyles w).2 in
  injected_styles (page w') = tail (injected_styles (page w))
  ∧ other_elements (page w') = other_elements (page w)
  ∧ (style_count (page w) = 0%nat → w' = w)
  ∧ sync w' = sync w.
Proof.
  cbn zeta. split; [apply removeStyles_injected|].
  split; [apply removeStyles_other|]. split.
  - apply removeStyles_clean.
  - unfold removeStyles. by destruct (getElementById _ _).
Qed.

(** X12. [injectStyles] never adds a second style element: it removes the
    first element with the id before it appends the new one as the last
    child of the head (of the root element on a page without head), so a
    page holds afterwards one such element, or as many as before when it
    held more; no other element is touched. *)
Theorem injectStyles_spec (s : SiteSettings) (w : browser) :
  let w' := (injectStyles s w).2 in
  injected_styles (page w') ≡ₚ styleElement s :: tail (injected_styles (page w))
  ∧ style_count (page w') = Nat.max 1 (style_count (page w))
  ∧ other_elements (page w') = other_elements (page w)
  ∧ last (target_children (page w')) = Some (styleElement s)
  ∧ sync w' = sync w.
Proof.
  cbn zeta.
  pose proof (injectStyles_injected s w) as Hperm.
  split; [done|]. split.
  { unfold style_count. rewrite Hperm. simpl.
    destruct (injected_styles (page w)); simpl; lia. }
  split.
  { rewrite injectStyles_page, appendChild_other by done. apply removeStyles_other. }
  split.
  { rewrite injectStyles_page. unfold target_children, appendChild_to_target.
    destruct (head (page (removeStyles w).2)); simpl; apply last_snoc. }
  unfold injectStyles, bind. destruct (removeStyles w) as [[] w1] eqn:Hrem. simpl.
  replace w1 with (removeStyles w).2 by (by rewrite Hrem).
  unfold removeStyles. by destruct (getElementById _ _).
Qed.

Lemma remove_first_snoc (i : jsstring) (l : list element) (el : element) :
  ¬ Exists (λ e, element_id e = i) l → element_id el = i →
  remove_first i (l ++ [el]) = l.
Proof.
  intros Hno Hid. induction l as [|e l IH]; simpl.
  - by rewrite bool_decide_true.
  - rewrite bool_decide_false.
    + f_equal. apply IH. intros Hex. apply Hno. by right.
    + intros He. apply Hno. by left.
Qed.

Lemma remove_first_none (i : jsstring) (l : list element) :
  ¬ Exists (λ e, element_id e = i) l → remove_first i l = l.
Proof.
  intros Hno. induction l as [|e l IH]; [done|]. simpl.
  rewrite bool_decide_false.
  - f_equal. apply IH. intros Hex. apply Hno. by right.
  - intros He. apply Hno. by left.
Qed.

Lemma injected_styles_nil (d : document) :
  injected_styles d = [] →
  ¬ Exists (λ e, element_id e = STYLE_ID) (default [] (head d))
  ∧ ¬ Exists (λ e, element_id e = STYLE_ID) (documentElement d).
Proof.
  unfold injected_styles, elements. rewrite filter_app. intros Hnil.
  apply app_eq_nil in Hnil as [Hh Hd].
  split; intros Hex; apply filter_id_cons in Hex as (el & rest & Hex); congruence.
Qed.

(** On a page without injected style, removing the appended element
    restores the page. *)
Lemma remove_by_id_appendChild (el : element) (d : document) :
  element_id el = STYLE_ID → injected_styles d = [] →
  remove_by_id STYLE_ID (appendChild_to_target el d) = d.
Proof.
  intros Hid Hnil. apply injected_styles_nil in Hnil as [Hh Hd].
  unfold remove_by_id, appendChild_to_target.
  destruct d as [[h|] de]; simpl in *.
  - rewrite bool_decide_true.
    + by rewrite remove_first_snoc.
    + apply Exists_app. right. by left.
  - by rewrite remove_first_snoc.
Qed.

Lemma getElementById_appendChild (el : element) (d : document) :
  element_id el = STYLE_ID →
  is_Some (getElementById STYLE_ID (appendChild_to_target el d)).
Proof.
  intros Hid. unfold getElementById.
  apply fmap_is_Some.
  destruct (list_find _ _) as [?|] eqn:Hfind; [done|].
  exfalso. assert (Hall := proj1 (list_find_None _ _) Hfind).
  rewrite Forall_forall in Hall. apply (Hall el); [|done].
  apply appendChild_to_target_elem.
Qed.

Lemma with_page_page (w : browser) : with_page (page w) w = w.
Proof. by destruct w. Qed.

Lemma with_page_with_page (d d' : document) (w : browser) :
  with_page d (with_page d' w) = with_page d w.
Proof. done. Qed.

Lemma removeStyles_with_page (w : browser) :
  (removeStyles w).2 = with_page (page (removeStyles w).2) w.
Proof.
  unfold removeStyles. destruct (getElementById _ _); simpl; [done|].
  by rewrite with_page_page.
Qed.

Lemma injectStyles_with_page (s : SiteSettings) (w : browser) :
  (injectStyles s w).2 = with_page (page (injectStyles s w).2) w.
Proof.
  unfold injectStyles, bind. destruct (removeStyles w) as [[] w1] eqn:Hrem. simpl.
  pose proof (removeStyles_with_page w) as Hw1. rewrite Hrem in Hw1.
  destruct w1, w. unfold with_page in *. simpl in *. congruence.
Qed.

(** X13. On a page without injected style, injecting and then removing
    gives back the browser state from before. *)
Theorem injectStyles_removeStyles (s : SiteSettings) (w : browser) :
  style_count (page w) = 0%nat →
  (removeStyles (injectStyles s w).2).2 = w.
Proof.
  intros Hzero.
  pose proof (removeStyles_clean w Hzero) as Hsame.
  apply length_zero_iff_nil in Hzero.
  assert (Hpage : page (injectStyles s w).2 = appendChild_to_target (styleElement s) (page w)).
  { rewrite injectStyles_page. by rewrite Hsame. }
  unfold removeStyles at 1.
  destruct (getElementById_appendChild (styleElement s) (page w) eq_refl) as [el Hget].
  rewrite Hpage, Hget. cbn [snd].
  rewrite remove_by_id_appendChild by done.
  rewrite injectStyles_with_page, with_page_with_page. apply with_page_page.
Qed.

Lemma injectStyles_removeStyles_witness :
  (removeStyles (injectStyles example_settings fresh_browser).2).2 = fresh_browser.
Proof.
  apply (injectStyles_removeStyles example_settings fresh_browser).
  reflexivity.
Defined.

Lemma injectStyles_twice (s1 s2 : SiteSettings) (w : browser) :
  (style_count (page w) ≤ 1)%nat →
  (injectStyles s2 (injectStyles s1 w).2).2 = (injectStyles s2 w).2.
Proof.
  intros Hle.
  assert (Hclean : injected_styles (page (removeStyles w).2) = []).
  { rewrite removeStyles_injected. unfold style_count in Hle.
    destruct (injected_styles (page w)) as [|e [|e' l]]; simpl in *; [done|done|lia]. }
  rewrite (injectStyles_with_page s2 (injectStyles s1 w).2).
  rewrite (injectStyles_with_page s2 w).
  rewrite (injectStyles_with_page s1 w) at 2. rewrite with_page_with_page.
  f_equal.
  rewrite !(injectStyles_page s2). f_equal.
  unfold removeStyles at 1.
  rewrite (injectStyles_page s1).
  destruct (getElementById_appendChild (styleElement s1) (page (removeStyles w).2) eq_refl)
    as [el Hget].
  rewrite Hget. cbn [snd page with_page].
  by rewrite remove_by_id_appendChild.
Qed.

(** X14. On a page with at most one injected style (every page only this
    script has styled), the last injection wins: injecting [s2] after [s1]
    leaves the state that injecting [s2] alone leaves, with [s2] as the only
    injected style. *)
Theorem injectStyles_last_wins (s1 s2 : SiteSettings) (w : browser) :
  (style_count (page w) ≤ 1)%nat →
  (injectStyles s2 (injectStyles s1 w).2).2 = (injectStyles s2 w).2
  ∧ injected_styles (page (injectStyles s2 w).2) = [styleElement s2].
Proof.
  intros Hle. split; [by apply injectStyles_twice | by apply injectStyles_single].
Qed.

Lemma injectStyles_last_wins_witness :
  (injectStyles example_settings (injectStyles inactive_settings fresh_browser).2).2
  = (injectStyles example_settings fresh_browser).2.
Proof.
  apply (injectStyles_last_wins inactive_settings example_settings fresh_browser).
  vm_compute. lia.
Defined.

(** ** The content script follows the store *)

Lemma loadAndApplySettings_injected (w : browser) :
  (style_count (page w) ≤ 1)%nat →
  injected_styles (page (loadAndApplySettings w).2)
  = match is_active_settings (stored_site w) with
    | Some s => [styleElement s]
    | None => []
    end.
Proof.
  intros Hle. rewrite loadAndApplySettings_eq.
  destruct (is_active_settings _) as [s|].
  - by apply injectStyles_single.
  - rewrite removeStyles_injected. unfold style_count in Hle.
    destruct (injected_styles (page w)) as [|e [|e' l]]; simpl in *; [done|done|lia].
Qed.

(** X15. When the settings of the page's host are written and the change
    reaches the content script, the page (with at most one injected style
    before) carries exactly the style sheet of the written settings if they
    are active, and no injected style if they are not. *)
Theorem onStorageChanged_after_setSiteSettings (cfg : SiteSettings) (w : browser) :
  hostname w ≠ lit "__proto__" →
  (style_count (page w) ≤ 1)%nat →
  let w' := (onStorageChanged (lit "sync") true
               (setSiteSettings (hostname w) cfg w).2).2 in
  injected_styles (page w') = if isActive cfg then [styleElement cfg] else [].
Proof.
  intros Hhost Hle. cbn zeta.
  set (w1 := (setSiteSettings (hostname w) cfg w).2).
  assert (Hpage : page w1 = page w) by done.
  assert (Hname : hostname w1 = hostname w) by done.
  change (onStorageChanged (lit "sync") true w1) with (loadAndApplySettings w1).
  rewrite loadAndApplySettings_injected by (by rewrite Hpage).
  unfold stored_site. rewrite Hname.
  pose proof (setSiteSettings_getSiteSettings (hostname w) cfg w (or_introl Hhost)) as Hget.
  change (get_property (siteSettings (stored w1)) (hostname w) = Some (own_settings cfg))
    in Hget.
  rewrite Hget. simpl. by destruct (isActive cfg).
Qed.

Lemma onStorageChanged_after_setSiteSettings_witness :
  injected_styles
    (page (onStorageChanged (lit "sync") true
             (setSiteSettings (hostname fresh_browser) example_settings
                fresh_browser).2).2)
  = [styleElement example_settings].
Proof.
  apply (onStorageChanged_after_setSiteSettings example_settings fresh_browser).
  - vm_compute. discriminate.
  - vm_compute. lia.
Defined.



(** * The popup *)

Lemma store_and_apply_run (site : jsstring) (tab_id : option N) (s : SiteSettings)
    (w : browser) :
  store_and_apply site tab_id s w
  = ((Some s, applyStyles (Some site) tab_id s), (setSiteSettings site s w).2).
Proof.
  unfold store_and_apply, bind, ret. by destruct (setSiteSettings site s w) as [[] w'].
Qed.

(** A handler either returns at its guard or stores some settings and
    notifies the tab about them. *)
Lemma run_handler_cases (site : option jsstring) (storage : UserStorage)
    (current : option SiteSettings) (tab_id : option N) (a : popup_action)
    (w : browser) :
  run_handler site storage current tab_id a w = ((current, None), w)
  ∨ ∃ d s, site = Some d ∧ d ≠ []
      ∧ run_handler site storage current tab_id a w
        = ((Some s, applyStyles (Some d) tab_id s), (setSiteSettings d s w).2).
Proof.
  destruct site as [[|c d]|]; [left; by destruct a, current| |left; by destruct a, current].
  destruct a; cbn [run_handler];
    unfold handleRegisterSite, handleToggleActive, handleFontChange,
      handleStyleChange, handleApplyPreset.
  - destruct (favoriteFonts storage) as [|first rest]; [by left|].
    right. eexists _, _. split; [done|]. split; [done|]. apply store_and_apply_run.
  - destruct current as [s|]; [|by left].
    right. eexists _, _. split; [done|]. split; [done|]. apply store_and_apply_run.
  - destruct current as [s|]; [|by left].
    right. eexists _, _. split; [done|]. split; [done|]. apply store_and_apply_run.
  - destruct current as [s|]; [|by left].
    right. eexists _, _. split; [done|]. split; [done|]. apply store_and_apply_run.
  - destruct current as [s|]; [|by left].
    right. eexists _, _. split; [done|]. split; [done|]. apply store_and_apply_run.
Qed.

(** X17. Whatever the user does in the popup, the message sent agrees
    with the store: a handler either returns at its guard with nothing
    written and nothing sent, or it writes settings that the site then
    reads back and, for a tab with an id, sends an APPLY_STYLES message for
    the site that carries these settings when they are active and null when
    they are not. *)
Theorem run_handler_message_agrees (site : jsstring) (storage : UserStorage)
    (current : option SiteSettings) (tab_id : option N) (a : popup_action)
    (w : browser) :
  site ≠ lit "__proto__" →
  let r := run_handler (Some site) storage current tab_id a w in
  r = ((current, None), w)
  ∨ ∃ s, r.1.1 = Some s
      ∧ (getSiteSettings site r.2).1 = Some (own_settings s)
      ∧ page r.2 = page w
      ∧ match r.1.2 with
        | Some (i, message) =>
            tab_id = Some i
            ∧ action message = lit "APPLY_STYLES"
            ∧ domain message = site
            ∧ settings message = (if isActive s then Some s else None)
        | None => tab_id = None ∨ tab_id = Some 0
        end.
Proof.
  intros Hsite. cbn zeta.
  destruct (run_handler_cases (Some site) storage current tab_id a w)
    as [Hguard|(d & s & Hd & Hne & Hrun)]; [by left|right].
  injection Hd as <-. rewrite Hrun. exists s. cbn [fst snd].
  split; [done|]. split; [apply setSiteSettings_getSiteSettings; by left|].
  split; [done|].
  unfold applyStyles. destruct site as [|c site']; [done|].
  destruct tab_id as [[|i]|]; [by right| |by left]. done.
Qed.

Lemma run_handler_message_agrees_witness :
  let r := run_handler (Some (lit "example.com")) DEFAULT_STORAGE
             (Some example_settings) (Some 7) toggle_active fresh_browser in
  r.1.2 = Some (7, {| action := lit "APPLY_STYLES"; domain := lit "example.com";
                      settings := None |}).
Proof.
  destruct (run_handler_message_agrees (lit "example.com") DEFAULT_STORAGE
              (Some example_settings) (Some 7) toggle_active fresh_browser)
    as [Hguard|(s & Hs & _)].
  - vm_compute. discriminate.
  - vm_compute in Hguard. discriminate.
  - reflexivity.
Defined.








Section Popup.

Context `{URLParser}.


End Popup.

(** * Every declaration is forced *)

Lemma count_occurrences_fontWeightCSS_own (p : jsstring) (st : SiteStyles) :
  ends_outside p (lit "font-weight: ") = true →
  starts_outside p (lit " !important;") = true →
  count_occurrences p (fontWeightCSS st)
  = if bool_decide (fontWeight st = lit "inherit") then 0%nat
    else (count_occurrences p (lit "font-weight: ")
          + count_occurrences p (fontWeight st)
          + count_occurrences p (lit " !important;"))%nat.
Proof.
  intros He Hs. unfold fontWeightCSS. case_bool_decide as Hw.
  - apply count_occurrences_nil. by destruct p.
  - rewrite count_occurrences_app_end by done.
    rewrite count_occurrences_app_start by done. lia.
Qed.

(** X22. Every declaration of the generated style sheet carries
    [!important]. When the interpolated font family, letter spacing, word
    spacing and weight contain neither a semicolon nor that text, the style
    sheet has as many semicolons as occurrences of [!important]: five, and
    a sixth for the font weight when that is not inherited. *)
Theorem generateCSS_all_important (s : SiteSettings) :
  Forall (λ t, count_occurrences (lit ";") t = 0%nat
               ∧ count_occurrences (lit "!important") t = 0%nat)
    (interpolated_texts s) →
  count_occurrences (lit "!important") (generateCSS s)
  = count_occurrences (lit ";") (generateCSS s)
  ∧ count_occurrences (lit ";") (generateCSS s)
    = (if bool_decide (fontWeight (styles s) = lit "inherit") then 5 else 6)%nat.
Proof.
  unfold interpolated_texts. rewrite !Forall_cons.
  intros ([Hf1 Hf2] & [Hl1 Hl2] & [Hw1 Hw2] & [Hb1 Hb2] & _).
  assert (Hcount : ∀ p c, fits_template p = true →
            ends_outside p (lit "font-weight: ") = true →
            starts_outside p (lit " !important;") = true →
            c ∈ p → number_char c = false →
            template_count p = 5%nat →
            count_occurrences p (lit "font-weight: ") = 0%nat →
            count_occurrences p (lit " !important;") = 1%nat →
            count_occurrences p (fontFamily s) = 0%nat →
            count_occurrences p (letterSpacing (styles s)) = 0%nat →
            count_occurrences p (wordSpacing (styles s)) = 0%nat →
            count_occurrences p (fontWeight (styles s)) = 0%nat →
            count_occurrences p (generateCSS s)
            = (if bool_decide (fontWeight (styles s) = lit "inherit") then 5 else 6)%nat).
  { intros p c Hfit He Hs Hc Hnum Htemplate Hdecl Himp Hf Hl Hw Hb.
    rewrite count_occurrences_generateCSS by done.
    rewrite count_occurrences_fontWeightCSS_own by done.
    rewrite (number_text_count p (fontSizePercent _) c)
      by (done || apply toFixed0_number_text).
    rewrite (number_text_count p (Number_toString _) c)
      by (done || apply Number_toString_number_text).
    rewrite Htemplate, Hdecl, Himp, Hf, Hl, Hw, Hb.
    by destruct (bool_decide _). }
  assert (Hsemi := Hcount (lit ";") 59).
  assert (Himp := Hcount (lit "!important") 33).
  rewrite Hsemi, Himp; try done; try (vm_compute; reflexivity); compute_done.
Qed.

Lemma generateCSS_all_important_witness :
  count_occurrences (lit "!important") (generateCSS example_settings) = 5%nat.
Proof.
  destruct (generateCSS_all_important example_settings) as [-> ->].
  - repeat constructor.
  - reflexivity.
Defined.

(** * The options page *)

Lemma addPreset_fields name fontFamily styles w :
  StylePreset.name (addPreset name fontFamily styles w).1 = trim name
  ∧ StylePreset.fontFamily (addPreset name fontFamily styles w).1 = fontFamily.
Proof. by rewrite addPreset_result. Qed.

(** X23. [handleSavePreset] stores only presets with a name and a font.
    With a blank name or without a font it reports the error and leaves the
    browser state as it is. Otherwise every stored preset still has a
    non-empty name without white space at either end and a font, provided
    that held before; an addition makes the list one longer, an edit keeps
    the ids stored; fonts and site settings are untouched. *)
Theorem handleSavePreset_spec (presetName presetFont : jsstring)
    (presetStyles : SiteStyles) (editingPreset : option StylePreset.t) (w : browser) :
  Forall saved_preset (presets (stored w)) →
  let r := handleSavePreset presetName presetFont presetStyles editingPreset w in
  Forall saved_preset (presets (stored r.2))
  ∧ (trim presetName = [] ∨ presetFont = [] ↔ r.1 = name_missing ∨ r.1 = font_missing)
  ∧ (r.1 = name_missing ∨ r.1 = font_missing → r.2 = w)
  ∧ (r.1 = preset_saved →
       length (presets (stored r.2)) = S (length (presets (stored w))))
  ∧ (r.1 = preset_updated →
       map StylePreset.id (presets (stored r.2))
       = map StylePreset.id (presets (stored w)))
  ∧ favoriteFonts (stored r.2) = favoriteFonts (stored w)
  ∧ siteSettings (stored r.2) = siteSettings (stored w).
Proof.
  intros Hall. cbn zeta. unfold handleSavePreset.
  case_bool_decide as Hname.
  { cbn [ret fst snd]. repeat split; try done; try tauto; intros _; by left. }
  case_bool_decide as Hfont.
  { cbn [ret fst snd]. repeat split; try done; try tauto; intros _; by right. }
  destruct editingPreset as [editing|]; unfold bind, ret.
  - destruct (updatePreset _ _ _ _ w) as [[] w'] eqn:Hrun. cbn [fst snd].
    replace w' with (updatePreset (StylePreset.id editing) presetName presetFont
                       presetStyles w).2 by (by rewrite Hrun).
    destruct (updatePreset_stored (StylePreset.id editing) presetName presetFont
                presetStyles w) as (Hf & Hs & Hp).
    split; [|split; [|split; [|split; [|split; [|split]]]]]; try done.
    + rewrite Hp. destruct (list_find _ _) as [[index old]|]; [|done].
      apply Forall_insert; [done|].
      split; [|done]. split; [done|apply trim_idem].
    + split; intros [?|?]; done.
    + intros [?|?]; done.
    + intros _. rewrite Hp.
      destruct (list_find _ _) as [[index old]|] eqn:Hfind; [|done].
      apply list_find_Some in Hfind as (Hi & _ & _).
      rewrite list_fmap_insert. cbn [StylePreset.id].
      apply list_insert_id. by rewrite list_lookup_fmap, Hi.
  - destruct (addPreset _ _ _ w) as [p w'] eqn:Hrun. cbn [fst snd].
    replace w' with (addPreset presetName presetFont presetStyles w).2
      by (by rewrite Hrun).
    rewrite addPreset_stored. cbn [favoriteFonts siteSettings presets].
    destruct (addPreset_fields presetName presetFont presetStyles w) as [Hn Hf].
    split; [|split; [|split; [|split; [|split; [|split]]]]]; try done.
    + rewrite Forall_app, Forall_singleton. split; [done|].
      unfold saved_preset, trimmed_name. rewrite Hn, Hf.
      split; [|done]. split; [done|apply trim_idem].
    + split; intros [?|?]; done.
    + intros [?|?]; done.
    + intros _. rewrite length_app. simpl. lia.
Qed.

Lemma handleSavePreset_spec_witness :
  length (presets (stored (handleSavePreset (lit " Reading ") (lit "Pretendard")
                             DEFAULT_SITE_STYLES None fresh_browser).2)) = 1%nat.
Proof.
  destruct (handleSavePreset_spec (lit " Reading ") (lit "Pretendard")
              DEFAULT_SITE_STYLES None fresh_browser) as (_ & _ & _ & Hlen & _).
  - apply Forall_nil_2.
  - apply Hlen. reflexivity.
Defined.

(** * The two ways to the page agree *)

Lemma style_count_removeStyles (w : browser) :
  (style_count (page w) ≤ 1)%nat → style_count (page (removeStyles w).2) = 0%nat.
Proof.
  unfold style_count. rewrite removeStyles_injected.
  destruct (injected_styles (page w)) as [|e [|e' l]]; simpl; [done|done|lia].
Qed.

Lemma stored_site_injectStyles (s : SiteSettings) (w : browser) :
  stored_site (injectStyles s w).2 = stored_site w.
Proof. by rewrite injectStyles_with_page. Qed.

Lemma stored_site_removeStyles (w : browser) :
  stored_site (removeStyles w).2 = stored_site w.
Proof. by rewrite removeStyles_with_page. Qed.



Lemma deliver_state (i : N) (message : ApplyStylesMessage) (w : browser) :
  action message = lit "APPLY_STYLES" →
  (deliver (Some (i, message)) w).2
  = match settings message with
    | Some s => (injectStyles s w).2
    | None => (removeStyles w).2
    end.
Proof.
  intros Hact. unfold deliver, onMessage, bind, ret.
  rewrite bool_decide_true by done.
  destruct (settings message) as [s|].
  - by destruct (injectStyles s w) as [[] w'].
  - by destruct (removeStyles w) as [[] w'].
Qed.

(** X25. The message of the popup and the change event of the store lead
    to the same page. After an action in the popup of the tab that shows the
    site, either the handler returned at its guard, or, once its message is
    delivered, the content script's reaction to the change of the stored
    site settings leaves the browser state as the message left it. *)
Theorem popup_message_then_storage_change (storage : UserStorage)
    (current : option SiteSettings) (i : positive) (a : popup_action)
    (w : browser) :
  hostname w ≠ lit "__proto__" →
  (style_count (page w) ≤ 1)%nat →
  let r := run_handler (Some (hostname w)) storage current (Some (Npos i)) a w in
  let w' := (deliver r.1.2 r.2).2 in
  r = ((current, None), w)
  ∨ (is_Some r.1.2 ∧ (onStorageChanged (lit "sync") true w').2 = w').
Proof.
  intros Hsite Hle. cbn zeta.
  destruct (run_handler_cases (Some (hostname w)) storage current (Some (Npos i)) a w)
    as [Hguard|(d & s & Hd & Hne & Hrun)]; [by left|right].
  injection Hd as <-. rewrite Hrun. cbn [fst snd].
  destruct (hostname w) as [|c site'] eqn:Hhost; [done|]. cbn [applyStyles].
  split; [done|].
  set (w1 := (setSiteSettings (c :: site') s w).2).
  assert (Hstored : stored_site w1 = Some (own_settings s)).
  { unfold stored_site.
    change (hostname w1) with (hostname w). rewrite Hhost.
    apply (setSiteSettings_getSiteSettings (c :: site') s w). by left. }
  assert (Hcount : (style_count (page w1) ≤ 1)%nat) by done.
  rewrite deliver_state by done. cbn [settings].
  change (onStorageChanged (lit "sync") true ?v) with (loadAndApplySettings v).
  rewrite loadAndApplySettings_eq.
  destruct (isActive s) eqn:Hact.
  - rewrite stored_site_injectStyles, Hstored.
    cbn [is_active_settings]. rewrite Hact. by apply injectStyles_twice.
  - rewrite stored_site_removeStyles, Hstored.
    cbn [is_active_settings]. rewrite Hact.
    apply removeStyles_clean. by apply style_count_removeStyles.
Qed.

Lemma popup_message_then_storage_change_witness :
  let r := run_handler (Some (hostname fresh_browser)) DEFAULT_STORAGE
             (Some example_settings) (Some 7) (change_font (lit "Arial"))
             fresh_browser in
  (onStorageChanged (lit "sync") true (deliver r.1.2 r.2).2).2 = (deliver r.1.2 r.2).2.
Proof.
  destruct (popup_message_then_storage_change DEFAULT_STORAGE (Some example_settings)
              7 (change_font (lit "Arial")) fresh_browser) as [Hguard|[_ Hsame]].
  - vm_compute. discriminate.
  - vm_compute. lia.
  - vm_compute in Hguard. discriminate.
  - exact Hsame.
Defined.

(** X26. Opening a stored preset in the editor and saving it unchanged
    leaves the stored document as it was, when the preset is the first of
    its id and was saved by this page (its name is trimmed). *)
Theorem handleEditPreset_handleSavePreset (preset : StylePreset.t) (index : nat)
    (w : browser) :
  list_find (λ p, StylePreset.id p = StylePreset.id preset) (presets (stored w))
    = Some (index, preset) →
  saved_preset preset →
  let form := handleEditPreset preset in
  let r := handleSavePreset (presetName form) (presetFont form) (presetStyles form)
             (editingPreset form) w in
  r.1 = preset_updated ∧ stored r.2 = stored w.
Proof.
  intros Hfind [[Hname Htrim] Hfont]. cbn zeta.
  unfold handleEditPreset, handleSavePreset.
  cbn [presetName presetFont presetStyles editingPreset].
  rewrite Htrim, !bool_decide_false by done.
  unfold bind, ret.
  destruct (updatePreset _ _ _ _ w) as [[] w'] eqn:Hrun. cbn [fst snd].
  split; [done|].
  replace w' with (updatePreset (StylePreset.id preset) (StylePreset.name preset)
                     (StylePreset.fontFamily preset)
                     (spread_styles (StylePreset.styles preset)) w).2
    by (by rewrite Hrun).
  destruct (updatePreset_stored (StylePreset.id preset) (StylePreset.name preset)
              (StylePreset.fontFamily preset)
              (spread_styles (StylePreset.styles preset)) w) as (Hf & Hs & Hp).
  rewrite Hfind, Htrim in Hp.
  assert (Hsame : {| StylePreset.id := StylePreset.id preset;
                     StylePreset.name := StylePreset.name preset;
                     StylePreset.fontFamily := StylePreset.fontFamily preset;
                     StylePreset.styles :=
                       spread_styles (spread_styles (StylePreset.styles preset)) |}
                  = preset).
  { destruct preset as [i n f [? ? ? ? ?]]. done. }
  rewrite Hsame in Hp.
  apply list_find_Some in Hfind as (Hi & _ & _).
  rewrite list_insert_id in Hp by done.
  revert Hf Hs Hp.
  generalize (stored (updatePreset (StylePreset.id preset) (StylePreset.name preset)
                        (StylePreset.fontFamily preset)
                        (spread_styles (StylePreset.styles preset)) w).2).
  intros after. destruct after, (stored w). simpl. congruence.
Qed.

Lemma handleEditPreset_handleSavePreset_witness :
  let preset := {| StylePreset.id := lit "loyw3v29k2j1"; StylePreset.name := lit "Coding";
                   StylePreset.fontFamily := lit "Noto Sans";
                   StylePreset.styles := DEFAULT_SITE_STYLES |} in
  let w := with_sync (only_presets [preset]) fresh_browser in
  let form := handleEditPreset preset in
  stored (handleSavePreset (presetName form) (presetFont form) (presetStyles form)
            (editingPreset form) w).2 = stored w.
Proof.
  cbn zeta.
  apply (handleEditPreset_handleSavePreset
           {| StylePreset.id := lit "loyw3v29k2j1"; StylePreset.name := lit "Coding";
              StylePreset.fontFamily := lit "Noto Sans";
              StylePreset.styles := DEFAULT_SITE_STYLES |} 0).
  - vm_compute. reflexivity.
  - split; [split|]; vm_compute; (reflexivity || discriminate).
Defined.

(** ** The list of system fonts *)

Lemma string_lt_irrefl (x : jsstring) : string_lt x x = false.
Proof.
  induction x as [|a x IH]; [done|]. simpl.
  rewrite N.ltb_irrefl, N.eqb_refl. done.
Qed.

Lemma string_lt_trans (x y z : jsstring) :
  string_lt x y = true → string_lt y z = true → string_lt x z = true.
Proof.
  revert y z. induction x as [|a x IH]; intros [|b y] [|c z]; simpl; try done.
  rewrite !orb_true_iff, !andb_true_iff, !N.ltb_lt, !N.eqb_eq.
  intros [Hab|[-> Hxy]] [Hbc|[-> Hyz]].
  - left. lia.
  - by left.
  - by left.
  - right. split; [done|]. by eapply IH.
Qed.

Lemma string_lt_total (x y : jsstring) :
  x = y ∨ string_lt x y = true ∨ string_lt y x = true.
Proof.
  revert y. induction x as [|a x IH]; intros [|b y]; simpl; auto.
  rewrite !orb_true_iff, !andb_true_iff, !N.ltb_lt, !N.eqb_eq.
  destruct (N.lt_trichotomy a b) as [Hlt|[->|Hgt]]; [tauto| |tauto].
  destruct (IH y) as [->|[Hlt|Hgt]]; [by left| |]; tauto.
Qed.

Lemma insert_sorted_elem (x y : jsstring) (l : list jsstring) :
  y ∈ insert_sorted x l ↔ y = x ∨ y ∈ l.
Proof.
  induction l as [|z l IH]; simpl.
  - rewrite list_elem_of_singleton, elem_of_nil. tauto.
  - destruct (string_lt z x); rewrite !elem_of_cons; [rewrite IH|]; tauto.
Qed.

Lemma insert_sorted_ascending (x : jsstring) (l : list jsstring) :
  x ∉ l → ascending l → ascending (insert_sorted x l).
Proof.
  induction l as [|y l IH]; simpl; intros Hx Hl.
  - by split.
  - rewrite not_elem_of_cons in Hx. destruct Hx as [Hxy Hxl]. destruct Hl as [Hy Hl].
    destruct (string_lt y x) eqn:Hyx; simpl.
    + split; [|by apply IH].
      rewrite Forall_forall. intros z Hz. apply insert_sorted_elem in Hz as [->|Hz]; [done|].
      rewrite Forall_forall in Hy. by apply Hy.
    + assert (Hlt : string_lt x y = true).
      { destruct (string_lt_total x y) as [?|[?|?]]; [done|done|congruence]. }
      split; [|done].
      constructor; [done|].
      rewrite Forall_forall in *. intros z Hz. eapply string_lt_trans; [done|by apply Hy].
Qed.

Lemma Array_sort_elem (y : jsstring) (l : list jsstring) : y ∈ Array_sort l ↔ y ∈ l.
Proof.
  induction l as [|x l IH]; [done|]. simpl.
  rewrite insert_sorted_elem, elem_of_cons, IH. tauto.
Qed.

Lemma Array_sort_ascending (l : list jsstring) : NoDup l → ascending (Array_sort l).
Proof.
  induction 1 as [|x l Hx Hl IH]; simpl; [done|].
  apply insert_sorted_ascending; [|done]. by rewrite Array_sort_elem.
Qed.

Lemma ascending_NoDup (l : list jsstring) : ascending l → NoDup l.
Proof.
  induction l as [|x l IH]; simpl; [constructor|].
  intros [Hx Hl]. constructor; [|by apply IH].
  intros Hin. rewrite Forall_forall in Hx. specialize (Hx x Hin).
  by rewrite string_lt_irrefl in Hx.
Qed.

Lemma unique_from_elem (y : jsstring) (seen xs : list jsstring) :
  y ∈ unique_from seen xs ↔ y ∈ xs ∧ y ∉ seen.
Proof.
  revert seen. induction xs as [|x xs IH]; intros seen; simpl.
  - rewrite elem_of_nil. tauto.
  - case_bool_decide as Hseen.
    + rewrite IH, elem_of_cons. split; [tauto|].
      intros [[->|Hy] Hn]; [done|tauto].
    + rewrite !elem_of_cons, IH, not_elem_of_cons.
      destruct (decide (y = x)) as [->|Hne]; tauto.
Qed.

Lemma unique_from_NoDup (seen xs : list jsstring) : NoDup (unique_from seen xs).
Proof.
  revert seen. induction xs as [|x xs IH]; intros seen; simpl; [constructor|].
  case_bool_decide as Hseen; [apply IH|].
  constructor; [|apply IH].
  rewrite unique_from_elem, not_elem_of_cons. tauto.
Qed.

(** X27. When the browser grants access to the local fonts, the picker
    lists every family reported exactly once, in ascending order of code
    units, and selects the first of them; without the function or without
    the permission it switches to manual input and keeps its list. *)
Theorem loadSystemFonts_spec (queryLocalFonts : option (option (list FontData)))
    (st : font_picker) :
  let st' := loadSystemFonts queryLocalFonts st in
  match queryLocalFonts with
  | Some (Some fonts) =>
      fontAccessStatus st' = granted
      ∧ ascending (systemFonts st')
      ∧ NoDup (systemFonts st')
      ∧ (∀ f, f ∈ systemFonts st' ↔ ∃ d, d ∈ fonts ∧ family d = f)
      ∧ (fonts ≠ [] → systemFonts st' !! 0%nat = Some (selectedFont st'))
      ∧ useManualInput st' = useManualInput st
  | _ =>
      useManualInput st' = true
      ∧ systemFonts st' = systemFonts st
      ∧ fontAccessStatus st' ≠ granted
  end.
Proof.
  cbn zeta. destruct queryLocalFonts as [[fonts|]|]; [|done|done].
  cbn [loadSystemFonts systemFonts selectedFont fontAccessStatus useManualInput].
  assert (Hsorted : ascending (Array_sort (Set_spread (map family fonts))))
    by apply Array_sort_ascending, unique_from_NoDup.
  assert (Helem : ∀ f, f ∈ Array_sort (Set_spread (map family fonts))
                       ↔ ∃ d, d ∈ fonts ∧ family d = f).
  { intros f. rewrite Array_sort_elem. unfold Set_spread.
    rewrite unique_from_elem, list_elem_of_fmap.
    split.
    - intros [(d & -> & Hd) _]. by exists d.
    - intros (d & Hd & <-). split; [by exists d|apply not_elem_of_nil]. }
  split; [done|]. split; [done|]. split; [by apply ascending_NoDup|].
  split; [done|]. split; [|done].
  intros Hne. destruct (Array_sort _) as [|first rest] eqn:Hsort; [|done].
  exfalso. destruct fonts as [|d fonts']; [done|].
  apply (not_elem_of_nil (family d)). apply Helem.
  exists d. split; [apply list_elem_of_here|done].
Qed.
